(** * wps-version-tracker: the download engine and the version ledger

    A shallow embedding of [src/wps_version_crawler.py]: the chunk
    computation, the per-chunk fetch loop and the engine of class
    [Downloader], and the history ledger, the link check and the update
    decision of class [WPSVersionCrawler].

    Python integers are [Z] (unbounded, [//] is floor division, which is
    [Z.div]); byte strings are [list byte]; dictionaries are [gmap];
    an exception is the [Raises] outcome of a small error monad. *)

From stdpp Require Import base tactics option list numbers strings gmap.
From Stdlib Require Import ZArith Lia Strings.Ascii Strings.Byte.
From Stdlib Require Import Sorting.Sorted Sorting.Permutation.

Local Open Scope Z_scope.

(** ** Python primitives *)

Module Py.

(** The outcome of a call: a value, or an exception caught by
    [except Exception]. *)
Inductive outcome (A : Type) : Type :=
| Returns (a : A)
| Raises.
Arguments Returns {A} a.
Arguments Raises {A}.

#[global] Instance outcome_ret : MRet outcome := λ A a, Returns a.
#[global] Instance outcome_bind : MBind outcome := λ A B k m,
  match m with
  | Returns a => k a
  | Raises => Raises
  end.

(** [try: body / except Exception: handler]. *)
Definition try_except {A} (body : outcome A) (handler : outcome A) : outcome A :=
  match body with
  | Returns a => Returns a
  | Raises => handler
  end.

(** [range(start, stop, step)] for a positive [step]: CPython computes
    the length as [1 + (stop - 1 - start) // step] when [start < stop],
    and 0 otherwise; element [i] is [start + i * step]. *)
Definition range_len (start stop step : Z) : nat :=
  if decide (start < stop) then Z.to_nat (1 + (stop - 1 - start) / step) else 0%nat.

Definition range (start stop step : Z) : list Z :=
  (λ i : nat, start + Z.of_nat i * step) <$> seq 0 (range_len start stop step).

(** [all(results)]. *)
Definition all (results : list bool) : bool := forallb id results.

End Py.

Import Py.

(** ** RangeChunker: lines 139-145 of [Downloader.download_file] *)

Module Chunker.

(** [min_chunk_size = 1024 * 1024]. *)
Definition min_chunk_size : Z := 1024 * 1024.

(** [max(min_chunk, min(self.chunk_size, total_size // self.num_threads))]
    with the floor as a parameter. For [num_threads = 0] the source
    raises [ZeroDivisionError]; [Engine.download_file_body] takes that
    case before it comes here. *)
Definition effective_chunk_size (min_chunk chunk_size num_threads total_size : Z) : Z :=
  Z.max min_chunk (Z.min chunk_size (total_size / num_threads)).

(** The loop [for start in range(0, total_size, chunk_size)] appending
    [(start, min(start + chunk_size - 1, total_size - 1))]. *)
Definition chunks_of (chunk_size total_size : Z) : list (Z * Z) :=
  (λ start, (start, Z.min (start + chunk_size - 1) (total_size - 1)))
    <$> Py.range 0 total_size chunk_size.

Definition chunks_with (min_chunk chunk_size num_threads total_size : Z) : list (Z * Z) :=
  chunks_of (effective_chunk_size min_chunk chunk_size num_threads total_size) total_size.

(** The chunk list of [download_file], with the floor the source has. *)
Definition compute_chunks (chunk_size num_threads total_size : Z) : list (Z * Z) :=
  chunks_with min_chunk_size chunk_size num_threads total_size.

(** [tiles lo hi l]: the inclusive ranges of [l], in order, start at
    [lo], are non-empty, each starts right after the previous one ends,
    and the last one ends at [hi - 1]. *)
Fixpoint tiles (lo hi : Z) (l : list (Z * Z)) : Prop :=
  match l with
  | [] => lo = hi
  | (s, e) :: r => s = lo ∧ s ≤ e ∧ tiles (e + 1) hi r
  end.

Definition range_length (r : Z * Z) : Z := r.2 - r.1 + 1.

End Chunker.

(** ** What the network answers *)

Module Net.

(** The [content-length] header as [int(...)] sees it. *)
Inductive header_int : Type :=
| HAbsent
| HInt (n : Z)
| HMalformed.

(** [int(response.headers.get('content-length', 0))]: 0 when the header
    is absent, [ValueError] when it is not a number. *)
Definition int_content_length (h : header_int) : outcome Z :=
  match h with
  | HAbsent => Returns 0
  | HInt n => Returns n
  | HMalformed => Raises
  end.

(** A response: its status, its length header, the pieces that
    [iter_content] yields, and whether the stream raises after them. *)
Record response : Type := {
  status_code : Z;
  content_length : header_int;
  body : list (list byte);
  broken : bool
}.

(** A request either raises (connection error, timeout) or is answered. *)
Inductive reply : Type :=
| TransportError
| Response (r : response).

End Net.

Import Net.

(** ** The destination file *)

Module Fs.

(** The file at [save_path]: absent, or its bytes. *)
Definition file : Type := option (list byte).

(** One [f.write(data)] at position [pos] of a file opened ['rb+']:
    bytes are overwritten in place, a gap past the end is zero filled,
    and the file grows when the data runs past its end. *)
Definition write_at (pos : nat) (data content : list byte) : list byte :=
  take pos content ++ replicate (pos - length content) x00
    ++ data ++ drop (pos + length data) content.

(** [for chunk in response.iter_content(...): if chunk: f.write(chunk)]
    starting at position [pos]. *)
Fixpoint write_pieces (pos : nat) (pieces : list (list byte))
    (content : list byte) : list byte :=
  match pieces with
  | [] => content
  | p :: ps =>
      if decide (p = []) then write_pieces pos ps content
      else write_pieces (pos + length p) ps (write_at pos p content)
  end.

End Fs.

Import Fs.

(** ** ChunkFetcher: [Downloader._download_chunk] *)

Module Fetch.

Definition max_retries : Z := 3.

(** [response.status_code in (200, 206)]. *)
Definition accepted (status : Z) : bool :=
  bool_decide (status = 200) || bool_decide (status = 206).

(** The state of the [while] loop: the number of requests sent so far,
    [retry_count] and the file; or the value returned. *)
Inductive loop_state : Type :=
| Running (attempt : nat) (retry_count : Z) (f : file)
| Done (result : bool) (attempt : nat) (f : file).

(** One turn of [while retry_count < max_retries]. [srv n] is the answer
    to the [n]-th request of this chunk. The [except] branch adds one to
    [retry_count]; a response whose status is not accepted falls through
    the [if] to the loop test with [retry_count] as it was. *)
Definition step (srv : nat → reply) (start : Z) (st : loop_state) : loop_state :=
  match st with
  | Done _ _ _ => st
  | Running n retry_count f =>
      if decide (retry_count < max_retries) then
        let except f' := Running (S n) (retry_count + 1) f' in
        match srv n with
        | TransportError => except f
        | Response r =>
            if accepted (status_code r) then
              match f with
              | None => except None
              | Some content =>
                  if decide (start < 0) then except f
                  else
                    let content' :=
                      write_pieces (Z.to_nat start) (body r) content in
                    if broken r then except (Some content')
                    else Done true (S n) (Some content')
              end
            else Running (S n) retry_count f
        end
      else Done false n f
  end.

Definition run (fuel : nat) (srv : nat → reply) (start : Z) (f : file) : loop_state :=
  Nat.iter fuel (step srv start) (Running 0 0 f).

(** [_download_chunk(url, start, end, file_path, pbar)]: the request
    carries [Range: bytes=start-end], [net start end_] are the answers
    to it. [None] when the loop is still running after [fuel] turns;
    otherwise the value returned, the number of requests sent and the
    file. *)
Definition _download_chunk (fuel : nat) (net : Z → Z → nat → reply)
    (start end_ : Z) (f : file) : option (bool * nat * file) :=
  match run fuel (net start end_) start f with
  | Done b n f' => Some (b, n, f')
  | Running _ _ _ => None
  end.

End Fetch.

Import Fetch.

(** ** ParallelDownloadEngine and SingleStreamFallback *)

Module Engine.

(** The world of one call of [download_file]: the answer to the HEAD
    probe, whether [open(save_path, 'wb')] succeeds, the answer to the
    GET of [_download_single], and the answers to the range requests. *)
Record env : Type := {
  head : reply;
  create_ok : bool;
  single : reply;
  net : Z → Z → nat → reply
}.

(** The [except] handler of both functions: remove the file when it
    exists, return [False]. *)
Definition cleanup : bool * file := (false, None).

(** The [try] body of [_download_single]: the bytes written, or an
    exception ([raise_for_status] raises on a 4xx or 5xx status). *)
Definition single_body (E : env) : outcome (list byte) :=
  match single E with
  | TransportError => Raises
  | Response r =>
      if decide (400 ≤ status_code r < 600) then Raises
      else
        _ ← int_content_length (content_length r);
        if negb (create_ok E) then Raises
        else if broken r then Raises
        else Returns (write_pieces 0 (body r) [])
  end.

Definition _download_single (E : env) : bool * file :=
  match single_body E with
  | Returns content => (true, Some content)
  | Raises => cleanup
  end.

(** The futures of the thread pool, run one after the other in the
    order they were submitted; [results] collects what they return. *)
Fixpoint run_chunks (fuel : nat) (net : Z → Z → nat → reply)
    (chunks : list (Z * Z)) (f : file) : option (list bool * file) :=
  match chunks with
  | [] => Some ([], f)
  | (start, end_) :: rest =>
      match _download_chunk fuel net start end_ f with
      | None => None
      | Some (b, _, f1) =>
          match run_chunks fuel net rest f1 with
          | None => None
          | Some (bs, f2) => Some (b :: bs, f2)
          end
      end
  end.

(** The [try] body of [download_file]; [Raises] stands for every
    exception the [except Exception] clause catches. *)
Definition download_file_body (fuel : nat) (E : env)
    (num_threads chunk_size : Z) (f : file) : option (outcome (bool * file)) :=
  match head E with
  | TransportError => Some Raises
  | Response r =>
      if decide (status_code r ≠ 200) then Some (Returns (false, f))
      else
        match int_content_length (content_length r) with
        | Raises => Some Raises
        | Returns total_size =>
            if decide (total_size = 0) then Some (Returns (_download_single E))
            else if negb (create_ok E) then Some Raises
            else if decide (total_size < 0) then Some Raises
            else if decide (num_threads = 0) then Some Raises
            else
              let chunks := Chunker.compute_chunks chunk_size num_threads total_size in
              if decide (num_threads < 0) then Some Raises
              else
                match run_chunks fuel (net E) chunks
                        (Some (replicate (Z.to_nat total_size) x00)) with
                | None => None
                | Some (results, f') => Some (Returns (Py.all results, f'))
                end
        end
  end.

(** [Downloader.download_file(url, save_path)]: the value returned and
    the file afterwards; [None] when a chunk loop is still running
    after [fuel] turns. *)
Definition download_file (fuel : nat) (E : env)
    (num_threads chunk_size : Z) (f : file) : option (bool * file) :=
  match download_file_body fuel E num_threads chunk_size f with
  | None => None
  | Some (Returns r) => Some r
  | Some Raises => Some cleanup
  end.

End Engine.

(** ** VersionLedger: [_load_history], [_save_history], [_update_history] *)

Module Ledger.

(** The values the crawler stores in a record: a string or [None]. *)
Inductive value : Type :=
| VNone
| VStr (s : string).

#[global] Instance value_eq_dec : EqDecision value.
Proof. solve_decision. Defined.

(** A version record is a dictionary; the ledger maps a platform key to
    the list of its records. *)
Abbreviation record := (gmap string value).
Abbreviation history := (gmap string (list (gmap string value))).

(** [d.get(k)]: [None] for a missing key. *)
Definition py_get (d : record) (k : string) : value :=
  default VNone (d !! k).

(** [d.get(k, "")]. *)
Definition py_get_str (d : record) (k : string) : value :=
  default (VStr "") (d !! k).

(** [record.update(version_info)]: the fields of [version_info]
    overwrite, the other fields of [record] stay. *)
Definition py_update (r version_info : record) : record :=
  version_info ∪ r.

(** [str.lower] on ASCII letters, which is all a platform name has. *)
Definition lower_ascii (c : ascii) : ascii :=
  let n := N_of_ascii c in
  if ((65 <=? n) && (n <=? 90))%N then ascii_of_N (n + 32) else c.

Fixpoint lower (s : string) : string :=
  match s with
  | EmptyString => EmptyString
  | String c s' => String (lower_ascii c) (lower s')
  end.

(** [{"windows": [], "macos": []}]. *)
Definition empty_history : history :=
  <["windows" := []]> (<["macos" := []]> ∅).

(** What [json.load] can return: a ledger of the shape the crawler
    writes, or some other JSON document. *)
Inductive json_doc : Type :=
| LedgerDoc (h : history)
| OtherDoc.

(** The history file: absent; present but [open] raises; present but
    [json.load] raises; or holding a document. *)
Inductive stored : Type :=
| Absent
| Unreadable
| Unparsable
| Parsed (d : json_doc).

(** [os.path.exists(self.history_file)]. *)
Definition exists_ (d : stored) : bool :=
  match d with
  | Absent => false
  | _ => true
  end.

(** [with open(...) as f: json.load(f)]. *)
Definition read_json (d : stored) : outcome json_doc :=
  match d with
  | Parsed doc => Returns doc
  | _ => Raises
  end.

(** [_load_history]: the value of [self.version_history] afterwards. *)
Definition _load_history (d : stored) : outcome json_doc :=
  if exists_ d then
    try_except (read_json d) (Returns (LedgerDoc empty_history))
  else Returns (LedgerDoc empty_history).

(** How the write of [_save_history] goes: it succeeds, [open] raises
    (the file is as before), or [json.dump] raises after the file was
    truncated (what is left does not parse). *)
Inductive write_behaviour : Type :=
| WriteOk
| OpenFails
| DumpFails.

(** The [try] body of [_save_history]: its outcome and the file. *)
Definition write_json (w : write_behaviour) (h : history) (d : stored)
    : outcome () * stored :=
  match w with
  | WriteOk => (Returns (), Parsed (LedgerDoc h))
  | OpenFails => (Raises, d)
  | DumpFails => (Raises, Unparsable)
  end.

(** [_save_history]: the exception is logged and dropped. *)
Definition _save_history (w : write_behaviour) (h : history) (d : stored)
    : outcome () * stored :=
  let '(o, d') := write_json w h d in
  (try_except o (Returns ()), d').

(** The [for ... else] of [_update_history]: the first record with the
    same [version] is updated in place, else the record is appended. *)
Fixpoint update_or_append (version_info : record) (l : list record) : list record :=
  match l with
  | [] => [version_info]
  | r :: l' =>
      if decide (py_get r "version" = py_get version_info "version")
      then py_update r version_info :: l'
      else r :: update_or_append version_info l'
  end.

(** The sort key [lambda x: x.get("update_time", "")]. *)
Definition sort_key (r : record) : value := py_get_str r "update_time".

Definition is_str (v : value) : bool :=
  match v with
  | VStr _ => true
  | VNone => false
  end.

(** [a < b] on keys that are strings (code point order, which is the
    byte order of UTF-8). *)
Definition key_ltb (a b : value) : bool :=
  match a, b with
  | VStr s, VStr t => String.ltb s t
  | _, _ => false
  end.

(** Stable insertion for a descending order: [x], which came first,
    goes before the first element whose key is not greater. *)
Fixpoint insert_desc (x : record) (l : list record) : list record :=
  match l with
  | [] => [x]
  | y :: l' =>
      if key_ltb (sort_key x) (sort_key y) then y :: insert_desc x l'
      else x :: y :: l'
  end.

Definition sorted_desc (l : list record) : list record :=
  foldr insert_desc [] l.

(** [l.sort(key=..., reverse=True)]: stable, descending; with two or
    more elements every key is compared, and comparing [None] raises
    [TypeError]. *)
Definition py_sort_reverse (l : list record) : outcome (list record) :=
  if decide (length l < 2)%nat then Returns l
  else if forallb (λ r, is_str (sort_key r)) l then Returns (sorted_desc l)
  else Raises.

(** The in-memory part of [_update_history]. *)
Definition upsert (platform : string) (version_info : record) (h : history)
    : outcome history :=
  let platform_key := lower platform in
  let h1 : history :=
    match h !! platform_key with
    | None => <[platform_key := []]> h
    | Some _ => h
    end in
  let l := update_or_append version_info (default [] (h1 !! platform_key)) in
  l' ← py_sort_reverse l;
  Returns (<[platform_key := l']> h1).

(** [_update_history(platform, version_info)]: the ledger in memory and
    the history file afterwards. *)
Definition _update_history (w : write_behaviour) (platform : string)
    (version_info : record) (h : history) (d : stored)
    : outcome (history * stored) :=
  h' ← upsert platform version_info h;
  let '(o, d') := _save_history w h' d in
  _ ← o;
  Returns (h', d').

(** The version key of the specification: [version] and [build_number]
    (the platform is the key of the list). *)
Definition version_key (r : record) : value * value :=
  (py_get r "version", py_get r "build_number").

(** Descending order of the sort keys. *)
Definition key_ge (a b : record) : Prop :=
  match sort_key a, sort_key b with
  | VStr s, VStr t => String.le t s
  | _, _ => False
  end.

End Ledger.

Import Ledger.

(** ** The link check and the update decision *)

Module Decision.

(** [_verify_download_url]: the HEAD request raises or is answered; the
    bare [except] returns [False]. *)
Definition _verify_download_url (r : reply) : outcome bool :=
  try_except
    (match r with
     | TransportError => Raises
     | Response resp => Returns (bool_decide (status_code resp = 200))
     end)
    (Returns false).

(** The truth value of [local_info]: [None] and the empty dictionary
    are false. *)
Definition truthy (local_info : option record) : bool :=
  match local_info with
  | None => false
  | Some r => bool_decide (r ≠ ∅)
  end.

Inductive decision : Type :=
| Skip (existing : record)
| Proceed.

(** Lines 689-692 of [_get_macos_version], reached once [version] and
    [build_number] are parsed and before any download. *)
Definition macos_decision (local_info : option record)
    (version build_number : string) : decision :=
  match local_info with
  | Some r =>
      if truthy local_info
         && bool_decide (py_get r "version" = VStr version)
         && bool_decide (py_get r "build_number" = VStr build_number)
      then Skip r else Proceed
  | None => Proceed
  end.

(** What [_get_windows_version] returns and does. *)
Inductive windows_result : Type :=
| WinSkip (existing : record)
    (* [return local_info] *)
| WinRecord (version : string) (download_url : option string)
    (* [result] built without [local_file], passed to [_update_history] *)
| WinUnknown.
    (* the record with version ["Unknown"] and an [error] field *)

Definition windows_download_base_url : string :=
  "https://official-package.wpscdn.cn/wps/download".

Definition setup_url (bit_prefix version : string) : string :=
  windows_download_base_url +:+ "/WPS_Setup_" +:+ bit_prefix +:+ version +:+ ".exe".

(** [for bit_prefix in ["X64_", ""]]: the first link that verifies. *)
Definition first_valid (verify : string → bool) (version : string) : option string :=
  if verify (setup_url "X64_" version) then Some (setup_url "X64_" version)
  else if verify (setup_url "" version) then Some (setup_url "" version)
  else None.

(** [_get_windows_version]. [from_360] is the version found on the
    first page, [from_site] the link captured on the official site and
    the version read from it, [verify] the link check. The second
    component lists the links handed to [download_file]. A reference to
    the undefined names [url_64], [url_32] raises [NameError], which the
    outer [except] turns into the ["Unknown"] record. *)
Definition _get_windows_version (local_info : option record)
    (from_360 : option string) (from_site : option (string * option string))
    (verify : string → bool) : windows_result * list string :=
  let '(latest_version, download_url) :=
    match from_360 with
    | Some v => (Some v, first_valid verify v)
    | None =>
        match from_site with
        | Some (url, v) => (v, Some url)
        | None => (None, None)
        end
    end in
  match latest_version with
  | Some v => (WinRecord v download_url, [])
  | None =>
      let latest := "21915" in
      if negb (verify (setup_url "" latest)) then
        if negb (verify (setup_url "X64_" latest)) then (WinUnknown, [])
        else
          match local_info with
          | Some r =>
              if truthy local_info && bool_decide (py_get r "version" = VStr latest)
              then (WinSkip r, [])
              else (WinUnknown, [])
          | None => (WinUnknown, [])
          end
      else (WinUnknown, [])
  end.

End Decision.

Import Decision.

(** ** Notions used in the statements *)

(** [file_le f f']: the file [f'] exists exactly when [f] does, and is
    at least as long. *)
Definition file_le (f f' : file) : Prop :=
  match f, f' with
  | None, None => True
  | Some c, Some c' => (length c ≤ length c')%nat
  | _, _ => False
  end.

(** The file component of a loop state. *)
Definition state_file (st : loop_state) : file :=
  match st with
  | Running _ _ f => f
  | Done _ _ f => f
  end.

(** A server that answers every request with the given status and an
    empty body. *)
Definition status_reply (status : Z) : reply :=
  Response {| status_code := status; content_length := HAbsent;
              body := []; broken := false |}.

(** A world in which the probe answers 200 with a length of 1000 bytes,
    the file can be created, and every GET raises. *)
Definition chunk_failure_env : Engine.env :=
  {| Engine.head := Response {| status_code := 200; content_length := HInt 1000;
                                body := []; broken := false |};
     Engine.create_ok := true;
     Engine.single := TransportError;
     Engine.net := λ _ _ _, TransportError |}.

(** The sort key of a record as a string. *)
Definition str_key (r : record) : string :=
  match sort_key r with
  | VStr s => s
  | VNone => ""
  end.

(** Every record of [l] has a string (or no) [update_time], so that the
    keys can be compared. *)
Definition str_keys (l : list record) : Prop :=
  Forall (λ r, is_str (sort_key r) = true) l.

(** A ledger with one macOS record, 7.5.1 (8994), and the record of a
    newly found 7.5.1 (9000). *)
Definition ledger_751 : history :=
  {[ "macos" :=
       [ {[ "version" := VStr "7.5.1"; "build_number" := VStr "8994";
            "update_time" := VStr "2025-01-01 00:00:00" ]} ] ]}.

Definition record_751_9000 : record :=
  {[ "version" := VStr "7.5.1"; "build_number" := VStr "9000";
     "update_time" := VStr "2025-06-20 00:00:00" ]}.

(** ** The remote resource *)

Module Resource.

(** The bytes [start..end] (inclusive) of a resource, which is what a
    request with [Range: bytes=start-end] asks for. *)
Definition slice (start end_ : Z) (resource : list byte) : list byte :=
  take (Z.to_nat (end_ - start + 1)) (drop (Z.to_nat start) resource).

(** A server that honours the range header: whenever it answers a range
    request with an accepted status, the body it delivers is the start
    of the bytes asked for, and all of them when the stream does not
    break. It may still raise or answer with any other status. *)
Definition honours_ranges (resource : list byte) (net : Z → Z → nat → reply) : Prop :=
  ∀ start end_ n r,
    net start end_ n = Response r → accepted (status_code r) = true →
    concat (body r) `prefix_of` slice start end_ resource
    ∧ (broken r = false → concat (body r) = slice start end_ resource).

(** The sum of the lengths of a list of ranges. *)
Definition total_length (l : list (Z * Z)) : Z :=
  foldr (λ r acc, Chunker.range_length r + acc) 0 l.

End Resource.

(** An answer with the given status and body pieces, whose stream does
    not break. *)
Definition status_reply_with (status : Z) (pieces : list (list byte)) : reply :=
  Response {| status_code := status; content_length := HAbsent;
              body := pieces; broken := false |}.

(** A server that raises on the first request for a range and then
    delivers the bytes asked for in one piece with status 206. *)
Definition range_server (resource : list byte) : Z → Z → nat → reply :=
  λ start end_ n,
    match n with
    | O => TransportError
    | S _ => status_reply_with 206 [Resource.slice start end_ resource]
    end.

(** A world with that server, whose probe reports the length of the
    resource and whose plain GET delivers the resource in pieces. *)
Definition range_env (resource : list byte) (pieces : list (list byte)) : Engine.env :=
  {| Engine.head :=
       Response {| status_code := 200;
                   content_length := HInt (Z.of_nat (length resource));
                   body := []; broken := false |};
     Engine.create_ok := true;
     Engine.single := status_reply_with 200 pieces;
     Engine.net := range_server resource |}.

(** ** The crawler: file names, hashes, link selection, retries, saving *)

Module Crawler.

(** [s.endswith(suffix)]. *)
Fixpoint ends_with (suffix s : string) : bool :=
  bool_decide (s = suffix)
  || match s with
     | EmptyString => false
     | String _ s' => ends_with suffix s'
     end.

(** [sub in s]. *)
Fixpoint contains (sub s : string) : bool :=
  String.prefix sub s
  || match s with
     | EmptyString => false
     | String _ s' => contains sub s'
     end.

(** [s.rstrip('/')]. *)
Fixpoint rstrip_slash (s : string) : string :=
  match s with
  | EmptyString => EmptyString
  | String c s' =>
      let t := rstrip_slash s' in
      if bool_decide (c = "/"%char) && bool_decide (t = EmptyString)
      then EmptyString else String c t
  end.

(** The truth value of an optional string argument: [None] and [""] are
    false. *)
Definition truthy_str (o : option string) : bool :=
  match o with
  | None => false
  | Some s => negb (bool_decide (s = EmptyString))
  end.

(** An optional string inside an f-string: [None] prints as ["None"]. *)
Definition format_opt (o : option string) : string :=
  match o with
  | None => "None"
  | Some s => s
  end.

(** [_generate_filename(platform, version, build_number, release_date)]. *)
Definition _generate_filename (platform version : string)
    (build_number release_date : option string) : string :=
  if decide (lower platform = "windows") then
    if truthy_str release_date
    then "WPS_Office_" +:+ version +:+ "_" +:+ format_opt release_date +:+ ".exe"
    else "WPS_Office_" +:+ version +:+ ".exe"
  else if decide (lower platform = "macos") then
    if truthy_str release_date
    then "WPS_Office_" +:+ version +:+ "_" +:+ format_opt build_number
           +:+ "_" +:+ format_opt release_date +:+ ".zip"
    else "WPS_Office_" +:+ version +:+ "_" +:+ format_opt build_number +:+ ".zip"
  else "".

(** The blocks that [iter(lambda: f.read(4096), b"")] yields for a file
    with the given bytes left: 4096 bytes at a time, the rest at the
    end, until a read returns nothing. *)
Fixpoint read_blocks (fuel : nat) (content : list byte) : list (list byte) :=
  match fuel with
  | O => []
  | S fuel' =>
      let block := take 4096 content in
      if decide (block = []) then []
      else block :: read_blocks fuel' (drop 4096 content)
  end.

Section hash.

(** The hash object of [hashlib]: its initial state, [update] and
    [hexdigest]. *)
Variable hash_state : Type.
Variable sha256 : hash_state.
Variable update : hash_state → list byte → hash_state.
Variable hexdigest : hash_state → string.

(** [_calculate_file_hash(file_path)]: [open] raises when the file is
    absent; a read never needs more turns than the file has bytes, plus
    the one that returns nothing. *)
Definition _calculate_file_hash (f : file) : outcome string :=
  match f with
  | None => Raises
  | Some content =>
      Returns (hexdigest
                 (foldl update sha256 (read_blocks (S (length content)) content)))
  end.

End hash.

(** The two tests on a captured link and the choice of the download link
    in [_get_macos_version]: the first captured link that ends in
    [.zip] on [wpscdn.cn]; failing that, the first directory link on
    [wpscdn.cn] with the installer name appended. [captured] lists
    [self.captured_urls] in the order the loops visit it. *)
Definition is_zip_link (url : string) : bool :=
  ends_with ".zip" url && contains "wpscdn.cn" url.

Definition is_dir_link (url : string) : bool :=
  ends_with "/" url && contains "wpscdn.cn" url.

Definition select_download_url (captured : list string) : option string :=
  match List.find is_zip_link captured with
  | Some url => Some url
  | None =>
      match List.find is_dir_link captured with
      | Some url => Some (rstrip_slash url +:+ "/WPS_Office_Installer.zip")
      | None => None
      end
  end.

(** The [result] dictionary of [_get_macos_version]; [downloaded] holds
    the path and the hash of the file when the download succeeded. *)
Definition macos_record (version build_number download_url now : string)
    (release_date : option string) (downloaded : option (string * string)) : record :=
  let base : record :=
    {[ "platform" := VStr "macOS"; "version" := VStr version;
       "build_number" := VStr build_number;
       "download_url" := VStr download_url; "update_time" := VStr now ]} in
  let dated : record :=
    if truthy_str release_date
    then <["release_date" := VStr (format_opt release_date)]> base else base in
  match downloaded with
  | Some (save_path, file_hash) =>
      <["file_hash" := VStr file_hash]> (<["local_file" := VStr save_path]> dated)
  | None => dated
  end.

(** The record returned when no version could be found. *)
Definition unknown_record (platform now error : string) : record :=
  {[ "platform" := VStr platform; "version" := VStr "Unknown";
     "download_url" := VNone; "update_time" := VStr now;
     "error" := VStr error ]}.

(** How one turn of the [while] loop of [_get_macos_version] ends: an
    exception reaches the [except] clause; no version text, button or
    link was found and control reaches [retry_count += 1]; or a [return]
    is executed (the local record, or the new [result]). *)
Inductive macos_attempt : Type :=
| AttemptRaises (error : string)
| AttemptNothing
| AttemptReturns (r : record).

(** The state of that loop: the attempts made and [retry_count], or the
    value returned ([None] when the loop is left without a [return]). *)
Inductive macos_state : Type :=
| MRunning (attempt : nat) (retry_count : Z)
| MDone (attempt : nat) (result : option record).

(** The message of the record returned after the last attempt found
    nothing. *)
Definition nothing_found : string := "无法获取版本信息或下载链接".

Definition macos_step (now : string) (page : nat → macos_attempt)
    (st : macos_state) : macos_state :=
  match st with
  | MDone _ _ => st
  | MRunning n retry_count =>
      if decide (retry_count < 3) then
        let retry error :=
          if decide (retry_count + 1 < 3) then MRunning (S n) (retry_count + 1)
          else MDone (S n) (Some (unknown_record "macOS" now error)) in
        match page n with
        | AttemptReturns r => MDone (S n) (Some r)
        | AttemptNothing => retry nothing_found
        | AttemptRaises error => retry error
        end
      else MDone n None
  end.

(** [_get_macos_version]: the attempts made and the value returned;
    [None] when the loop is still running after [fuel] turns. *)
Definition _get_macos_version (fuel : nat) (now : string)
    (page : nat → macos_attempt) : option (nat * option record) :=
  match Nat.iter fuel (macos_step now page) (MRunning 0 0) with
  | MDone n r => Some (n, r)
  | MRunning _ _ => None
  end.

(** A version file [versions/<key>/<key>.yaml]: absent, not loadable, or
    holding a mapping. *)
Inductive yaml_file : Type :=
| YAbsent
| YUnparsable
| YHolds (data : record).

(** The [local_info] that the platform functions read at their start:
    [None] unless the file exists and loads. *)
Definition read_local_info (y : yaml_file) : option record :=
  match y with
  | YHolds data => Some data
  | YAbsent | YUnparsable => None
  end.

(** How the write of [save_version_info] goes: it succeeds, [open]
    raises, or [yaml.dump] raises and leaves the file in some state. *)
Inductive yaml_write : Type :=
| YWriteOk
| YOpenFails
| YDumpFails (leftover : yaml_file).

(** The test of [crawl_all_versions] before it saves. *)
Definition worth_saving (version_info : record) : bool :=
  bool_decide (version_info ≠ ∅)
  && bool_decide (is_Some (version_info !! "version"))
  && bool_decide (version_info !! "version" ≠ Some (VStr "Unknown")).

(** [save_version_info(platform, data)]: the version files afterwards,
    and whether it returned or raised. *)
Definition save_version_info (w : yaml_write) (platform : string) (data : record)
    (files : gmap string yaml_file) : outcome () * gmap string yaml_file :=
  match w with
  | YWriteOk => (Returns (), <[lower platform := YHolds data]> files)
  | YOpenFails => (Raises, files)
  | YDumpFails leftover => (Raises, <[lower platform := leftover]> files)
  end.

(** One turn of the loop of [crawl_all_versions]: [crawled] is what the
    platform's function did (returned a record or [None], or raised);
    every exception is logged and dropped. *)
Definition crawl_platform (platform : string) (crawled : outcome (option record))
    (w : yaml_write) (files : gmap string yaml_file) : gmap string yaml_file :=
  match crawled with
  | Raises | Returns None => files
  | Returns (Some version_info) =>
      if worth_saving version_info
      then (save_version_info w platform version_info files).2
      else files
  end.

(** [crawl_all_versions]: Windows first, then macOS. *)
Definition crawl_all_versions (windows macos : outcome (option record))
    (w_windows w_macos : yaml_write) (files : gmap string yaml_file)
    : gmap string yaml_file :=
  crawl_platform "macOS" macos w_macos
    (crawl_platform "Windows" windows w_windows files).

End Crawler.

Import Crawler.

(** An attempt that reaches a [return]. *)
Definition attempt_returns (a : macos_attempt) : Prop :=
  match a with
  | AttemptReturns _ => True
  | _ => False
  end.



(** * Properties *)

(** ** The chunk list *)

Section chunker_facts.

Variables step total : Z.
Hypothesis step_pos : 0 < step.
Hypothesis total_pos : 0 < total.

Let q : Z := (total - 1) / step.

Lemma q_bounds : 0 ≤ q ∧ q * step ≤ total - 1 < (q + 1) * step.
Proof.
  unfold q. pose proof (Z.div_pos (total - 1) step).
  pose proof (Z.mul_div_le (total - 1) step).
  pose proof (Z.mul_succ_div_gt (total - 1) step). lia.
Qed.

Lemma range_len_total : Py.range_len 0 total step = Z.to_nat (1 + q).
Proof.
  unfold Py.range_len, q. rewrite decide_True by lia.
  by replace (total - 1 - 0) with (total - 1) by lia.
Qed.

Lemma chunks_of_length :
  length (Chunker.chunks_of step total) = Z.to_nat (1 + q).
Proof.
  unfold Chunker.chunks_of, Py.range.
  by rewrite !length_fmap, length_seq, range_len_total.
Qed.

Lemma chunks_of_lookup (i : nat) (r : Z * Z) :
  Chunker.chunks_of step total !! i = Some r ↔
  Z.of_nat i ≤ q ∧
  r = (Z.of_nat i * step, Z.min (Z.of_nat i * step + step - 1) (total - 1)).
Proof.
  pose proof q_bounds as Hq.
  unfold Chunker.chunks_of, Py.range.
  rewrite !list_lookup_fmap, range_len_total. split.
  - intros H. destruct (seq _ _ !! i) as [j|] eqn:Hj; [|done].
    apply lookup_seq in Hj as [-> Hlt]. simpl in H.
    inversion H. split; [lia|done].
  - intros [Hi ->]. rewrite (lookup_seq_lt 0 _ i) by lia. done.
Qed.

Lemma chunks_of_tiles_from (m k : nat) :
  Z.of_nat (k + m) = q →
  Chunker.tiles (Z.of_nat k * step) total
    ((λ start, (start, Z.min (start + step - 1) (total - 1)))
       <$> ((λ i : nat, 0 + Z.of_nat i * step) <$> seq k (S m))).
Proof.
  pose proof q_bounds as Hq.
  revert k. induction m as [|m IH]; intros k Hk.
  - simpl. split; [lia|]. replace (Z.of_nat k) with q by lia.
    split; lia.
  - change (seq k (S (S m))) with (k :: seq (S k) (S m)).
    rewrite !fmap_cons. cbn [Chunker.tiles].
    assert ((Z.of_nat k + 1) * step ≤ q * step) by nia.
    split; [lia|]. split; [lia|].
    rewrite Z.min_l by lia.
    replace (0 + Z.of_nat k * step + step - 1 + 1)
      with (Z.of_nat (S k) * step) by lia.
    apply IH. lia.
Qed.

Lemma chunks_of_tiles : Chunker.tiles 0 total (Chunker.chunks_of step total).
Proof.
  pose proof q_bounds as Hq.
  unfold Chunker.chunks_of, Py.range. rewrite range_len_total.
  replace (Z.to_nat (1 + q)) with (S (Z.to_nat q)) by lia.
  apply (chunks_of_tiles_from (Z.to_nat q) 0). lia.
Qed.

Lemma chunks_of_full_length (i : nat) (r : Z * Z) :
  Chunker.chunks_of step total !! i = Some r →
  (S i < length (Chunker.chunks_of step total))%nat →
  Chunker.range_length r = step.
Proof.
  pose proof q_bounds as Hq.
  rewrite chunks_of_length. intros [Hi ->]%chunks_of_lookup Hlt.
  unfold Chunker.range_length. simpl.
  assert ((Z.of_nat i + 1) * step ≤ q * step) by nia.
  lia.
Qed.

End chunker_facts.

(** What [tiles] says pointwise: the ranges are ordered and disjoint, and
    a byte offset lies in one of them exactly when it is in [lo, hi). *)
Lemma tiles_bounds lo hi l :
  Chunker.tiles lo hi l → lo ≤ hi ∧ Forall (λ r, lo ≤ r.1 ∧ r.1 ≤ r.2 ∧ r.2 < hi) l.
Proof.
  revert lo. induction l as [|[s e] l IH]; intros lo; simpl.
  - intros ->. split; [lia|constructor].
  - intros (-> & Hse & Ht). destruct (IH _ Ht) as [Hle Hall].
    split; [lia|]. constructor; [simpl; lia|].
    eapply Forall_impl; [exact Hall|]. simpl. intros; lia.
Qed.

Lemma tiles_cover lo hi l x :
  Chunker.tiles lo hi l → (lo ≤ x < hi ↔ ∃ r, r ∈ l ∧ r.1 ≤ x ≤ r.2).
Proof.
  revert lo. induction l as [|[s e] l IH]; intros lo; simpl.
  - intros ->. split; [lia|]. intros (r & Hr & _). by apply elem_of_nil in Hr.
  - intros (-> & Hse & Ht). pose proof (tiles_bounds _ _ _ Ht) as [Hle _].
    specialize (IH _ Ht). split.
    + intros Hx. destruct (decide (x ≤ e)).
      * exists (lo, e). split; [left|simpl; lia].
      * destruct (proj1 IH) as (r & Hr & Hin); [lia|].
        exists r. split; [by right|done].
    + intros (r & Hr & Hin). apply elem_of_cons in Hr as [->|Hr].
      * simpl in Hin. lia.
      * assert (e + 1 ≤ x < hi); [|lia]. apply IH. eauto.
Qed.

Lemma tiles_ordered lo hi l (i j : nat) ri rj :
  Chunker.tiles lo hi l → l !! i = Some ri → l !! j = Some rj →
  (i < j)%nat → ri.2 < rj.1.
Proof.
  revert lo i j. induction l as [|[s e] l IH]; intros lo i j; simpl; [done|].
  intros (-> & Hse & Ht) Hi Hj Hlt.
  destruct j as [|j]; [lia|]. simpl in Hj.
  destruct i as [|i]; simpl in Hi.
  - inversion Hi; subst. simpl.
    pose proof (tiles_bounds _ _ _ Ht) as [_ Hall].
    rewrite Forall_forall in Hall.
    apply list_elem_of_lookup_2 in Hj. specialize (Hall _ Hj). simpl in Hall. lia.
  - eapply IH; eauto. lia.
Qed.

Lemma effective_chunk_size_floor min_chunk chunk_size num_threads total_size :
  min_chunk ≤ Chunker.effective_chunk_size min_chunk chunk_size num_threads total_size.
Proof. unfold Chunker.effective_chunk_size. lia. Qed.

(** C1: for a positive [total_size], any [chunk_size] and a positive
    [num_threads], the chunk list of [download_file] tiles
    [0, total_size): the ranges come in order, each starts right after the
    previous one ends, they do not overlap, a byte offset is covered
    exactly when it is in [0, total_size), and every range but the last
    is at least [min_chunk_size] = 1 MiB long. *)
Theorem compute_chunks_partition (chunk_size num_threads total_size : Z) :
  0 < total_size → 0 < num_threads →
  let chunks := Chunker.compute_chunks chunk_size num_threads total_size in
  Chunker.tiles 0 total_size chunks
  ∧ (∀ x, 0 ≤ x < total_size ↔ ∃ r, r ∈ chunks ∧ r.1 ≤ x ≤ r.2)
  ∧ (∀ (i j : nat) ri rj,
       chunks !! i = Some ri → chunks !! j = Some rj → (i < j)%nat → ri.2 < rj.1)
  ∧ (∀ (i : nat) r,
       chunks !! i = Some r → (S i < length chunks)%nat →
       Chunker.min_chunk_size ≤ Chunker.range_length r).
Proof.
  intros Htotal _ chunks.
  pose proof (effective_chunk_size_floor
                Chunker.min_chunk_size chunk_size num_threads total_size) as Hfloor.
  assert (0 < Chunker.effective_chunk_size
                Chunker.min_chunk_size chunk_size num_threads total_size) as Hstep.
  { assert (0 < Chunker.min_chunk_size) by (by vm_compute). lia. }
  assert (Chunker.tiles 0 total_size chunks) as Ht.
  { by apply chunks_of_tiles. }
  split; [done|]. split; [|split].
  - intros x. by apply tiles_cover.
  - intros i j ri rj. by apply tiles_ordered with (lo := 0) (hi := total_size).
  - intros i r Hi Hlt.
    rewrite (chunks_of_full_length _ _ Hstep Htotal i r Hi Hlt). done.
Qed.

(** The same at a 50 MiB file, 16 workers and 6 MiB chunks. *)
Lemma compute_chunks_partition_witness :
  let chunks := Chunker.compute_chunks (6 * 1024 * 1024) 16 (50 * 1024 * 1024) in
  Chunker.tiles 0 (50 * 1024 * 1024) chunks
  ∧ (∀ x, 0 ≤ x < 50 * 1024 * 1024 ↔ ∃ r, r ∈ chunks ∧ r.1 ≤ x ≤ r.2)
  ∧ (∀ (i j : nat) ri rj,
       chunks !! i = Some ri → chunks !! j = Some rj → (i < j)%nat → ri.2 < rj.1)
  ∧ (∀ (i : nat) r,
       chunks !! i = Some r → (S i < length chunks)%nat →
       Chunker.min_chunk_size ≤ Chunker.range_length r).
Proof. apply (compute_chunks_partition (6 * 1024 * 1024) 16 (50 * 1024 * 1024)); lia. Defined.

(** C3, as the code computes it. The floor of [download_file] is fixed
    at [min_chunk_size] = 1048576 (1,000,000 is not a value it takes):
    with total_size = 10,000,000, chunk_size = 6,000,000 and 16 workers
    the effective chunk size is max(1048576, min(6000000, 625000)) =
    1048576 and the chunk list has the 10 ranges [0, 1048575],
    [1048576, 2097151], ..., [9437184, 9999999], the last one shorter. *)
Theorem chunks_scenario_code_ranges :
  Chunker.effective_chunk_size Chunker.min_chunk_size 6000000 16 10000000 = 1048576
  ∧ Chunker.compute_chunks 6000000 16 10000000 =
      [ (0, 1048575); (1048576, 2097151); (2097152, 3145727);
        (3145728, 4194303); (4194304, 5242879); (5242880, 6291455);
        (6291456, 7340031); (7340032, 8388607); (8388608, 9437183);
        (9437184, 9999999) ].
Proof. split; reflexivity. Qed.

(** C3 as stated does not hold: the chunk list that [download_file]
    computes for the scenario is not the two ranges [0, 5999999],
    [6000000, 9999999]. *)
Lemma chunks_scenario_code_not_two_ranges :
  Chunker.compute_chunks 6000000 16 10000000
    ≠ [ (0, 5999999); (6000000, 9999999) ].
Proof. vm_compute. discriminate. Qed.

(** The formula alone, with the floor as a parameter set to 1,000,000:
    10 ranges of 1,000,000 bytes, and again not two ranges. *)
Example chunks_scenario_parametric_floor :
  Chunker.chunks_with 1000000 6000000 16 10000000 =
    [ (0, 999999); (1000000, 1999999); (2000000, 2999999);
      (3000000, 3999999); (4000000, 4999999); (5000000, 5999999);
      (6000000, 6999999); (7000000, 7999999); (8000000, 8999999);
      (9000000, 9999999) ].
Proof. reflexivity. Qed.

(** ** Writing into the file *)

Lemma write_at_length pos data content :
  length (write_at pos data content)
  = (length content `max` (pos + length data))%nat.
Proof.
  unfold write_at.
  rewrite !length_app, length_take, length_replicate, length_drop. lia.
Qed.

Lemma write_at_prefix pos data content :
  take pos (write_at pos data content)
  = take pos content ++ replicate (pos - length content) x00.
Proof.
  unfold write_at. rewrite app_assoc.
  rewrite take_app_length'; [done|].
  rewrite length_app, length_take, length_replicate. lia.
Qed.

Lemma write_at_data pos data content :
  take (length data) (drop pos (write_at pos data content)) = data.
Proof.
  unfold write_at. rewrite app_assoc.
  rewrite drop_app_length'.
  - by rewrite take_app_length.
  - rewrite length_app, length_take, length_replicate. lia.
Qed.

Lemma write_at_suffix pos data content :
  drop (pos + length data) (write_at pos data content)
  = drop (pos + length data) content.
Proof.
  unfold write_at. rewrite !app_assoc.
  rewrite drop_app_length'; [done|].
  rewrite !length_app, length_take, length_replicate. lia.
Qed.

Lemma write_at_write_at pos p d content :
  write_at (pos + length p) d (write_at pos p content)
  = write_at pos (p ++ d) content.
Proof.
  unfold write_at at 1.
  replace (take (pos + length p) (write_at pos p content))
    with (take pos content ++ replicate (pos - length content) x00 ++ p).
  2:{ unfold write_at. rewrite !app_assoc.
      rewrite take_app_length'; [done|].
      rewrite !length_app, length_take, length_replicate. lia. }
  replace (drop (pos + length p + length d) (write_at pos p content))
    with (drop (pos + length (p ++ d)) content).
  2:{ rewrite length_app, <- (drop_drop _ (length d)), write_at_suffix.
      rewrite drop_drop. f_equal. lia. }
  rewrite write_at_length.
  replace (pos + length p - _)%nat with 0%nat by lia.
  unfold write_at. simpl. by rewrite <- !app_assoc.
Qed.

(** The loop over the pieces writes their concatenation in one go, and
    writes nothing when all pieces are empty. *)
Lemma write_pieces_concat pieces pos content :
  write_pieces pos pieces content
  = if decide (concat pieces = []) then content
    else write_at pos (concat pieces) content.
Proof.
  revert pos content. induction pieces as [|p ps IH]; intros pos content; simpl.
  - done.
  - destruct (decide (p = [])) as [->|Hp]; simpl; [apply IH|].
    rewrite IH. rewrite (decide_False (P := p ++ concat ps = [])).
    2:{ intros [? _]%app_eq_nil. done. }
    destruct (decide (concat ps = [])) as [->|Hps].
    + by rewrite app_nil_r.
    + apply write_at_write_at.
Qed.

Lemma write_pieces_length pieces pos content :
  (length content ≤ length (write_pieces pos pieces content))%nat.
Proof.
  rewrite write_pieces_concat. case_decide; [done|].
  rewrite write_at_length. lia.
Qed.

(** ** The fetch loop *)

Lemma file_le_refl f : file_le f f.
Proof. destruct f; simpl; done. Qed.

Lemma file_le_trans f g h : file_le f g → file_le g h → file_le f h.
Proof. destruct f, g, h; simpl; try done. lia. Qed.

Lemma step_file_le srv start st :
  file_le (state_file st) (state_file (step srv start st)).
Proof.
  destruct st as [n rc f|b n f]; simpl; [|apply file_le_refl].
  case_decide; [|apply file_le_refl].
  destruct (srv n) as [|r]; [apply file_le_refl|].
  destruct (accepted _); [|apply file_le_refl].
  destruct f as [content|]; [|done].
  case_decide; [apply file_le_refl|].
  destruct (broken r); simpl; apply write_pieces_length.
Qed.

Lemma iter_file_le srv start fuel st :
  file_le (state_file st) (state_file (Nat.iter fuel (step srv start) st)).
Proof.
  induction fuel as [|fuel IH]; simpl; [apply file_le_refl|].
  eapply file_le_trans; [exact IH|apply step_file_le].
Qed.

Lemma download_chunk_file_le fuel net start end_ f b n f' :
  _download_chunk fuel net start end_ f = Some (b, n, f') → file_le f f'.
Proof.
  unfold _download_chunk, run. intros H.
  pose proof (iter_file_le (net start end_) start fuel (Running 0 0 f)) as Hle.
  destruct (Nat.iter _ _ _); simplify_eq. exact Hle.
Qed.

Lemma iter_done srv start fuel b n f :
  Nat.iter fuel (step srv start) (Done b n f) = Done b n f.
Proof. induction fuel as [|fuel IH]; simpl; [done|]. by rewrite IH. Qed.

Lemma run_add srv start f (k fuel : nat) :
  run (k + fuel) srv start f = Nat.iter k (step srv start) (run fuel srv start f).
Proof. unfold run. induction k as [|k IH]; simpl; [done|]. by rewrite IH. Qed.

Lemma step_transport_error srv start n retry_count f :
  retry_count < max_retries → srv n = TransportError →
  step srv start (Running n retry_count f) = Running (S n) (retry_count + 1) f.
Proof. intros Hrc Hn. simpl. rewrite decide_True by done. by rewrite Hn. Qed.

Lemma step_exhausted srv start n retry_count f :
  max_retries ≤ retry_count →
  step srv start (Running n retry_count f) = Done false n f.
Proof. intros Hrc. simpl. by rewrite decide_False by lia. Qed.

(** A transport error on every request: the loop stops after three
    requests and returns [False]; the file is untouched. *)
Lemma download_chunk_transport_errors net start end_ f (fuel : nat) :
  (∀ n, net start end_ n = TransportError) →
  (4 ≤ fuel)%nat →
  _download_chunk fuel net start end_ f = Some (false, 3%nat, f).
Proof.
  intros Hsrv Hfuel. unfold _download_chunk.
  replace fuel with ((fuel - 4) + 4)%nat by lia. rewrite run_add.
  assert (run 4 (net start end_) start f = Done false 3 f) as ->.
  { unfold run. rewrite !Nat.iter_succ. change (Nat.iter 0 _ ?x) with x.
    rewrite (step_transport_error _ _ 0 0) by (done || apply Hsrv).
    rewrite (step_transport_error _ _ 1 (0 + 1)) by (done || apply Hsrv).
    rewrite (step_transport_error _ _ 2 (0 + 1 + 1)) by (done || apply Hsrv).
    by apply step_exhausted. }
  by rewrite iter_done.
Qed.

(** A response whose status is neither 200 nor 206 sends the loop round
    again with [retry_count] unchanged. *)
Lemma step_rejected_status srv start n retry_count f r :
  retry_count < max_retries →
  srv n = Response r → accepted (status_code r) = false →
  step srv start (Running n retry_count f) = Running (S n) retry_count f.
Proof.
  intros Hrc Hn Hst. simpl. rewrite decide_True by done. by rewrite Hn, Hst.
Qed.

Lemma run_rejected_status srv start f (fuel : nat) :
  (∀ n, ∃ r, srv n = Response r ∧ accepted (status_code r) = false) →
  run fuel srv start f = Running fuel 0 f.
Proof.
  intros Hsrv. unfold run. induction fuel as [|fuel IH]; [done|].
  rewrite Nat.iter_succ, IH. destruct (Hsrv fuel) as (r & Hr & Hst).
  by apply step_rejected_status with (r := r).
Qed.

(** C4 at a server that answers 404 to every request: after any number
    [fuel] of turns the loop has sent [fuel] requests, [retry_count] is
    still 0 and nothing was returned; [_download_chunk] does not stop
    after 3 attempts and never returns [False]. *)
Theorem download_chunk_status_404_never_returns
    (fuel : nat) (start end_ : Z) (f : file) :
  run fuel (λ _, status_reply 404) start f = Running fuel 0 f
  ∧ _download_chunk fuel (λ _ _ _, status_reply 404) start end_ f = None.
Proof.
  assert (run fuel (λ _, status_reply 404) start f = Running fuel 0 f) as H.
  { apply run_rejected_status. intros n. eexists. split; [reflexivity|done]. }
  split; [exact H|]. unfold _download_chunk. by rewrite H.
Qed.

(** C8, as the code does it: a successful attempt (an accepted status, a
    stream that does not break) writes the whole body of the response, as
    received, at offset [start], and returns [True]. The file is never
    shortened; it grows when the body runs past its end. When the body
    has exactly [end - start + 1] bytes and [end] lies inside the file,
    exactly the bytes of [start..end] are replaced and the size stays. *)
Theorem download_chunk_attempt_writes_body
    (srv : nat → reply) (start : Z) (n : nat) (retry_count : Z)
    (content : list byte) (r : response) :
  retry_count < max_retries → 0 ≤ start →
  srv n = Response r → accepted (status_code r) = true → broken r = false →
  let pos := Z.to_nat start in
  let data := concat (body r) in
  ∃ content',
    step srv start (Running n retry_count (Some content))
      = Done true (S n) (Some content')
    ∧ content' = (if decide (data = []) then content else write_at pos data content)
    ∧ (length content ≤ length content')%nat
    ∧ (data ≠ [] → length content' = (length content `max` (pos + length data))%nat)
    ∧ (∀ end_ : Z,
         Z.of_nat (length data) = end_ - start + 1 →
         end_ < Z.of_nat (length content) →
         content' = take pos content ++ data ++ drop (Z.to_nat (end_ + 1)) content
         ∧ length content' = length content).
Proof.
  intros Hrc Hstart Hn Hst Hbr pos data.
  exists (write_pieces pos (body r) content).
  split; [|split; [|split; [|split]]].
  - simpl. rewrite decide_True by done. rewrite Hn, Hst.
    rewrite decide_False by lia. by rewrite Hbr.
  - apply write_pieces_concat.
  - apply write_pieces_length.
  - intros Hne. rewrite write_pieces_concat, decide_False by done.
    apply write_at_length.
  - intros end_ Hlen Hend. rewrite write_pieces_concat. fold data.
    destruct (decide (data = [])) as [Hd|Hd].
    + split; [|done]. rewrite Hd in Hlen |- *. simpl in Hlen.
      replace (Z.to_nat (end_ + 1)) with pos by lia.
      simpl. by rewrite take_drop.
    + split.
      * unfold write_at.
        replace (pos - length content)%nat with 0%nat by lia. simpl.
        do 3 f_equal. lia.
      * rewrite write_at_length. lia.
Qed.

(** A 206 answer with the two bytes of the range 1..2 of a 4 byte file. *)
Lemma download_chunk_attempt_writes_body_witness :
  ∃ content',
    step (λ _, Response {| status_code := 206; content_length := HAbsent;
                           body := [[x01]; []; [x02]]; broken := false |})
         1 (Running 0 0 (Some [x00; x00; x00; x00]))
      = Done true 1 (Some content')
    ∧ content' = [x00; x01; x02; x00].
Proof.
  destruct (download_chunk_attempt_writes_body
              (λ _, Response {| status_code := 206; content_length := HAbsent;
                                body := [[x01]; []; [x02]]; broken := false |})
              1 0%nat 0 [x00; x00; x00; x00]
              {| status_code := 206; content_length := HAbsent;
                 body := [[x01]; []; [x02]]; broken := false |})
    as (content' & Hstep & Hc & _); [done|lia|reflexivity|reflexivity|reflexivity|].
  exists content'. split; [exact Hstep|]. rewrite Hc. reflexivity.
Defined.

(** C8 as stated does not hold for a status 200 answer that carries the
    whole resource: asked for bytes 2..3 of a 4 byte file, the attempt
    succeeds, writes all 4 bytes of the body from offset 2 on, and the
    file is 6 bytes long afterwards. *)
Lemma download_chunk_full_body_resizes :
  _download_chunk 1
    (λ _ _ _, Response {| status_code := 200; content_length := HInt 4;
                          body := [[x01; x02; x03; x04]]; broken := false |})
    2 3 (Some [x00; x00; x00; x00])
  = Some (true, 1%nat, Some [x00; x00; x01; x02; x03; x04])
  ∧ length [x00; x00; x01; x02; x03; x04] ≠ length [x00; x00; x00; x00]
  ∧ [x00; x00; x01; x02; x03; x04] ≠ [x00; x00; x03; x04].
Proof. split; [reflexivity|]. split; [simpl; lia|discriminate]. Qed.

(** ** The engine *)

Lemma run_chunks_file_le fuel net chunks f results f' :
  Engine.run_chunks fuel net chunks f = Some (results, f') → file_le f f'.
Proof.
  revert f results. induction chunks as [|[s e] rest IH]; intros f results; simpl.
  - intros [= _ <-]. apply file_le_refl.
  - destruct (_download_chunk fuel net s e f) as [[[b n] f1]|] eqn:H1; [|done].
    destruct (Engine.run_chunks fuel net rest f1) as [[bs f2]|] eqn:H2; [|done].
    intros [= _ <-]. eapply file_le_trans.
    + eapply download_chunk_file_le, H1.
    + eapply IH, H2.
Qed.

(** Every failure that goes through an [except] clause removes the file:
    a probe that raises, and every failure of [_download_single]. *)
Lemma download_file_probe_raises fuel E num_threads chunk_size f :
  Engine.head E = TransportError →
  Engine.download_file fuel E num_threads chunk_size f = Some (false, None).
Proof. intros H. unfold Engine.download_file, Engine.download_file_body. by rewrite H. Qed.


(** Once the probe gave a positive size and the file was created, the
    engine never removes it: whatever the chunks return, the file is
    there afterwards with at least [total_size] bytes. *)
Lemma download_file_chunk_path_keeps_file
    fuel E num_threads chunk_size f r total_size b f' :
  Engine.head E = Response r → status_code r = 200 →
  int_content_length (content_length r) = Returns total_size →
  0 < total_size → Engine.create_ok E = true → 0 < num_threads →
  Engine.download_file fuel E num_threads chunk_size f = Some (b, f') →
  ∃ content, f' = Some content ∧ (Z.to_nat total_size ≤ length content)%nat.
Proof.
  intros Hhead Hst Hlen Hpos Hcreate Hnt.
  unfold Engine.download_file, Engine.download_file_body.
  rewrite Hhead, Hlen, Hcreate. simpl.
  rewrite decide_False by lia.
  rewrite !(decide_False (P := _ = 0)) by lia.
  rewrite !(decide_False (P := _ < 0)) by lia.
  destruct (Engine.run_chunks _ _ _ _) as [[results f'']|] eqn:Hrun; [|done].
  intros [= _ <-]. apply run_chunks_file_le in Hrun.
  destruct f'' as [content|]; [|done]. simpl in Hrun.
  rewrite length_replicate in Hrun. eauto.
Qed.

(** C2 at the failing run: the only chunk, (0, 999), fails three times
    and returns [False]; [download_file] returns [False] through
    [all(results)], not through the [except] clause, and the
    pre-allocated file of 1000 zero bytes is still at [save_path]. *)
Theorem download_file_chunk_failure_keeps_file :
  Chunker.compute_chunks (4 * 1024 * 1024) 16 1000 = [(0, 999)]
  ∧ _download_chunk 4 (Engine.net chunk_failure_env) 0 999
      (Some (replicate 1000 x00))
    = Some (false, 3%nat, Some (replicate 1000 x00))
  ∧ Engine.download_file 4 chunk_failure_env 16 (4 * 1024 * 1024) None
    = Some (false, Some (replicate 1000 x00)).
Proof. split; [|split]; vm_compute; reflexivity. Qed.

(** ** The ledger *)

(** C7: [_load_history] never raises. When the history file is absent,
    cannot be read or does not parse, the crawler holds the empty ledger
    [{"windows": [], "macos": []}]; otherwise it holds the document that
    was read. *)
Theorem load_history_never_raises (d : stored) :
  ∃ doc,
    _load_history d = Returns doc
    ∧ match d with
      | Parsed doc' => doc = doc'
      | Absent | Unreadable | Unparsable => doc = LedgerDoc empty_history
      end.
Proof. destruct d; eexists; (split; [reflexivity|reflexivity]). Qed.

(** The empty ledger has no record for any platform. *)
Lemma empty_history_no_records platform l :
  empty_history !! platform = Some l → l = [].
Proof.
  unfold empty_history. intros H.
  destruct (decide (platform = "windows")) as [->|Hw].
  { rewrite lookup_insert_eq in H. by simplify_eq. }
  rewrite lookup_insert_ne in H by done.
  destruct (decide (platform = "macos")) as [->|Hm].
  { rewrite lookup_insert_eq in H. by simplify_eq. }
  rewrite lookup_insert_ne in H by done. by rewrite lookup_empty in H.
Qed.


Lemma save_history_ok h d :
  (_save_history WriteOk h d).2 = Parsed (LedgerDoc h).
Proof. done. Qed.

Lemma save_then_load h d :
  _load_history (_save_history WriteOk h d).2 = Returns (LedgerDoc h).
Proof. done. Qed.


(** ** The link check and the update decision *)

(** C9: [_verify_download_url] never raises, and returns [True] exactly
    when the HEAD request is answered with status 200. *)
Theorem verify_download_url_total (r : reply) :
  ∃ b,
    _verify_download_url r = Returns b
    ∧ (b = true ↔ ∃ resp, r = Response resp ∧ status_code resp = 200).
Proof.
  destruct r as [|resp]; simpl.
  - exists false. split; [done|]. split; [done|]. by intros (? & ? & _).
  - exists (bool_decide (status_code resp = 200)). split; [done|].
    rewrite bool_decide_eq_true. split.
    + intros H. by exists resp.
    + by intros (? & [= <-] & H).
Qed.

(** The macOS decision is [Skip] exactly when a local record exists
    whose version and build number equal the discovered ones. *)
Lemma macos_decision_skip_iff local_info version build_number r :
  macos_decision local_info version build_number = Skip r ↔
  local_info = Some r
  ∧ py_get r "version" = VStr version
  ∧ py_get r "build_number" = VStr build_number.
Proof.
  unfold macos_decision.
  destruct local_info as [r'|]; [|split; [done|by intros [? _]]].
  simpl. split.
  - destruct (bool_decide (r' ≠ ∅)); simpl; [|done].
    destruct (bool_decide_reflect (py_get r' "version" = VStr version));
      simpl; [|done].
    destruct (bool_decide_reflect (py_get r' "build_number" = VStr build_number));
      simpl; [|done].
    by intros [= ->].
  - intros ([= ->] & Hv & Hb).
    assert (r ≠ ∅) as Hne.
    { intros ->. unfold py_get in Hv. by rewrite lookup_empty in Hv. }
    by rewrite !bool_decide_eq_true_2.
Qed.

(** On Windows no link is ever handed to [download_file]. *)
Lemma windows_never_downloads local_info from_360 from_site verify :
  (_get_windows_version local_info from_360 from_site verify).2 = [].
Proof.
  unfold _get_windows_version.
  destruct from_360 as [v|]; [done|].
  destruct from_site as [[url [v|]]|]; simpl; [done|..];
    repeat (destruct (verify _)); simpl; try done;
    destruct local_info; simpl; try done; by destruct (_ && _).
Qed.

(** Once the first page gives a version, the Windows path never skips. *)
Lemma windows_discovered_never_skips local_info v from_site verify :
  (_get_windows_version local_info (Some v) from_site verify).1
  = WinRecord v (first_valid verify v).
Proof. done. Qed.

(** C5 on Windows, at the scenario of the specification: the local
    record has version 21900 and discovery finds 21900 again. The code
    does not return the local record: it builds a fresh record, which the
    caller writes to the ledger. *)
Theorem windows_same_version_not_skipped :
  let local_info : record :=
    {[ "platform" := VStr "Windows"; "version" := VStr "21900";
       "update_time" := VStr "2025-01-01" ]} in
  truthy (Some local_info) = true
  ∧ py_get local_info "version" = VStr "21900"
  ∧ ∀ from_site verify,
      _get_windows_version (Some local_info) (Some "21900") from_site verify
      = (WinRecord "21900" (first_valid verify "21900"), []).
Proof. split; [|split]; [by vm_compute..|done]. Qed.

(** ** The upsert *)

Section upsert_facts.

Variable version_info : record.

Let same_version (r : record) : Prop :=
  py_get r "version" = py_get version_info "version".

(** The two ways of the [for ... else]: the first record with the same
    version is merged where it stands, or the record goes to the end. *)
Lemma update_or_append_cases (l : list record) :
  (∃ l1 r l2,
      l = l1 ++ r :: l2 ∧ Forall (λ x, ¬ same_version x) l1 ∧ same_version r
      ∧ update_or_append version_info l = l1 ++ py_update r version_info :: l2)
  ∨ (Forall (λ x, ¬ same_version x) l
     ∧ update_or_append version_info l = l ++ [version_info]).
Proof.
  induction l as [|x l IH]; simpl.
  - right. by split.
  - case_decide as Hx.
    + left. exists [], x, l. by repeat split.
    + destruct IH as [(l1 & r & l2 & -> & Hl1 & Hr & Heq)|[Hall Heq]].
      * left. exists (x :: l1), r, l2. rewrite Heq.
        repeat split; [by constructor|done].
      * right. rewrite Heq. split; [by constructor|done].
Qed.

Lemma update_or_append_length (l : list record) :
  length (update_or_append version_info l)
  = if decide (Exists same_version l) then length l else S (length l).
Proof.
  induction l as [|x l IH].
  - by destruct (decide (Exists same_version [])) as [?%Exists_nil|].
  - cbn [update_or_append]. fold (same_version x).
    destruct (decide (same_version x)) as [Hx|Hx].
    + by destruct (decide (Exists same_version (x :: l))) as [|[]]; [|left].
    + cbn [length]. rewrite IH.
      destruct (decide (Exists same_version l)) as [He|He];
        destruct (decide (Exists same_version (x :: l)))
          as [[?|?]%Exists_cons|Hne]; try done.
      destruct Hne. by right.
Qed.

Lemma sort_key_update r :
  is_str (sort_key version_info) = true → is_str (sort_key r) = true →
  is_str (sort_key (py_update r version_info)) = true.
Proof.
  unfold sort_key, py_get_str, py_update. rewrite lookup_union.
  destruct (version_info !! "update_time") as [v|];
    destruct (r !! "update_time"); simpl; done.
Qed.

Lemma update_or_append_keys (l : list record) :
  is_str (sort_key version_info) = true →
  Forall (λ r, is_str (sort_key r) = true) l →
  Forall (λ r, is_str (sort_key r) = true) (update_or_append version_info l).
Proof.
  intros Hinfo. induction 1 as [|x l Hx Hl IH]; simpl.
  - by repeat constructor.
  - case_decide; constructor; auto using sort_key_update.
Qed.

End upsert_facts.

(** ** The sort *)

Lemma key_ltb_str x y :
  is_str (sort_key x) = true → is_str (sort_key y) = true →
  key_ltb (sort_key x) (sort_key y) = String.ltb (str_key x) (str_key y).
Proof. unfold str_key. by destruct (sort_key x), (sort_key y). Qed.

Lemma key_ge_str x y :
  is_str (sort_key x) = true → is_str (sort_key y) = true →
  key_ge x y ↔ String.le (str_key y) (str_key x).
Proof. unfold key_ge, str_key. by destruct (sort_key x), (sort_key y). Qed.

Lemma string_ltb_le s t : String.ltb s t = true → String.le s t.
Proof.
  unfold String.ltb, String.le, String.leb.
  destruct (String.compare s t); simpl; done.
Qed.

Lemma string_not_ltb_ge s t : String.ltb s t = false → String.le t s.
Proof.
  unfold String.ltb, String.le, String.leb.
  rewrite (String.compare_antisym t s).
  destruct (String.compare s t); simpl; done.
Qed.

Lemma insert_desc_perm x l : insert_desc x l ≡ₚ x :: l.
Proof.
  induction l as [|y l IH]; simpl; [done|].
  destruct (key_ltb _ _); [|done].
  rewrite IH. apply perm_swap.
Qed.

Lemma sorted_desc_perm l : sorted_desc l ≡ₚ l.
Proof.
  induction l as [|x l IH]; simpl; [done|].
  by rewrite insert_desc_perm, IH.
Qed.

Lemma insert_desc_sorted x l :
  is_str (sort_key x) = true → str_keys l →
  StronglySorted key_ge l → StronglySorted key_ge (insert_desc x l).
Proof.
  intros Hx Hl Hs. induction Hs as [|y l Hs IH Hy]; simpl.
  - by repeat constructor.
  - apply Forall_cons in Hl as [Hyk Hl].
    rewrite key_ltb_str by done.
    destruct (String.ltb (str_key x) (str_key y)) eqn:Hlt.
    + constructor; [by apply IH|].
      rewrite insert_desc_perm. constructor; [|done].
      apply key_ge_str; [done..|]. by apply string_ltb_le.
    + apply string_not_ltb_ge in Hlt.
      constructor; [by constructor|].
      constructor; [by apply key_ge_str|].
      rewrite Forall_forall in Hy, Hl |- *. intros z Hz.
      apply key_ge_str; [done|by apply Hl|].
      transitivity (str_key y); [|done].
      apply key_ge_str; [done|by apply Hl|by apply Hy].
Qed.

Lemma sorted_desc_sorted l :
  str_keys l → StronglySorted key_ge (sorted_desc l).
Proof.
  induction 1 as [|x l Hx Hl IH]; simpl; [constructor|].
  apply insert_desc_sorted; [done| |done].
  unfold str_keys. by rewrite sorted_desc_perm.
Qed.

(** With string keys the sort does not raise; its result is a
    rearrangement in descending order of [update_time]. *)
Lemma py_sort_reverse_spec l :
  str_keys l →
  ∃ l', py_sort_reverse l = Returns l' ∧ l' ≡ₚ l ∧ StronglySorted key_ge l'.
Proof.
  intros Hl. unfold py_sort_reverse. case_decide as Hlen.
  - exists l. split; [done|]. split; [done|].
    destruct l as [|x [|y l]]; [constructor|by repeat constructor|simpl in Hlen; lia].
  - rewrite (proj2 (forallb_forall _ l)).
    2:{ intros r Hr%list_elem_of_In. unfold str_keys in Hl.
        rewrite Forall_forall in Hl. by apply Hl. }
    exists (sorted_desc l).
    split; [done|]. split; [apply sorted_desc_perm|by apply sorted_desc_sorted].
Qed.

(** C6, as the code does it: [_update_history] matches on [version]
    alone, within the list of [platform.lower()]. When the [update_time]
    of the new record and of the records of that list are strings (or
    absent), it returns normally; the first record with the same version
    is merged where it stands and the number of records is unchanged, or,
    when no record has that version, the new record is added and the list
    is one longer; the list is then a rearrangement in descending order
    of [update_time]; the lists of the other platforms are untouched; and
    the ledger is written at once: after a write that succeeds the file
    holds exactly the ledger in memory, a write that fails is dropped. *)
Theorem update_history_upsert_by_version
    (w : write_behaviour) (platform : string) (version_info : record)
    (h : history) (d : stored) :
  let key := lower platform in
  let l := default [] (h !! key) in
  let same_version (r : record) :=
    py_get r "version" = py_get version_info "version" in
  is_str (sort_key version_info) = true →
  str_keys l →
  ∃ l',
    _update_history w platform version_info h d
      = Returns (<[key := l']> h,
                 match w with
                 | WriteOk => Parsed (LedgerDoc (<[key := l']> h))
                 | OpenFails => d
                 | DumpFails => Unparsable
                 end)
    ∧ l' ≡ₚ update_or_append version_info l
    ∧ StronglySorted key_ge l'
    ∧ ((∃ l1 r l2,
          l = l1 ++ r :: l2 ∧ Forall (λ x, ¬ same_version x) l1 ∧ same_version r
          ∧ update_or_append version_info l = l1 ++ py_update r version_info :: l2
          ∧ length l' = length l)
       ∨ (Forall (λ x, ¬ same_version x) l
          ∧ update_or_append version_info l = l ++ [version_info]
          ∧ length l' = S (length l))).
Proof.
  intros key l same_version Hinfo Hl.
  destruct (py_sort_reverse_spec (update_or_append version_info l))
    as (l' & Hsort & Hperm & Hsorted).
  { by apply update_or_append_keys. }
  exists l'.
  assert (upsert platform version_info h = Returns (<[key := l']> h)) as Hup.
  { unfold upsert. fold key. subst l. revert Hsort.
    destruct (h !! key) as [l0|] eqn:Hk; cbn [default from_option id].
    - rewrite Hk. cbn [default from_option id]. by intros ->.
    - rewrite lookup_insert_eq. cbn [default from_option id]. intros ->.
      cbn [mbind outcome_bind]. by rewrite insert_insert_eq. }
  split.
  { unfold _update_history. rewrite Hup. by destruct w. }
  split; [done|]. split; [done|].
  destruct (update_or_append_cases version_info l)
    as [(l1 & r & l2 & Hl12 & Hl1 & Hr & Heq)|[Hall Heq]].
  - left. exists l1, r, l2. repeat split; try done.
    rewrite Hperm, Heq, Hl12. by rewrite !length_app.
  - right. repeat split; try done.
    rewrite Hperm, Heq, length_app. simpl. lia.
Qed.

(** A new Windows version goes in front of the older one. *)
Lemma update_history_upsert_by_version_witness :
  let version_info : record :=
    {[ "version" := VStr "21915"; "update_time" := VStr "2025-06-20 10:00:00" ]} in
  let old : record :=
    {[ "version" := VStr "21900"; "update_time" := VStr "2025-01-01 00:00:00" ]} in
  ∃ l',
    _update_history WriteOk "Windows" version_info {[ "windows" := [old] ]} Absent
      = Returns (<["windows" := l']> {[ "windows" := [old] ]},
                 Parsed (LedgerDoc (<["windows" := l']> {[ "windows" := [old] ]})))
    ∧ l' = [version_info; old].
Proof.
  intros version_info old.
  destruct (update_history_upsert_by_version WriteOk "Windows" version_info
              {[ "windows" := [old] ]} Absent)
    as (l' & Hrun & _); [reflexivity|by repeat constructor|].
  exists l'. split; [exact Hrun|].
  assert (_update_history WriteOk "Windows" version_info {[ "windows" := [old] ]} Absent
          = Returns (<["windows" := [version_info; old]]> {[ "windows" := [old] ]},
                     Parsed (LedgerDoc
                       (<["windows" := [version_info; old]]> {[ "windows" := [old] ]}))))
    as Hval by (vm_compute; reflexivity).
  rewrite Hval in Hrun.
  apply (f_equal (λ o : outcome (history * stored),
                    match o with
                    | Returns (m, _) => m !! "windows"
                    | Raises => None
                    end)) in Hrun.
  rewrite !lookup_insert_eq in Hrun. by injection Hrun.
Defined.

(** C6 as stated does not hold: the version key (7.5.1, 9000) is not in
    the ledger, yet the upsert adds no record; it overwrites the record
    of (7.5.1, 8994), and the list still has one record. *)
Lemma update_history_new_build_not_appended :
  Forall (λ r, version_key r ≠ version_key record_751_9000)
    (default [] (ledger_751 !! "macos"))
  ∧ upsert "macOS" record_751_9000 ledger_751
    = Returns {[ "macos" := [record_751_9000] ]}
  ∧ length [record_751_9000] ≠ S (length (default [] (ledger_751 !! "macos"))).
Proof.
  split; [|split].
  - repeat constructor. intros H. vm_compute in H. discriminate.
  - vm_compute. reflexivity.
  - vm_compute. discriminate.
Qed.

(** * Further properties *)

(** ** More on the chunk list *)

(** X1: a file of at most 1 MiB is fetched as one range, [0, total_size - 1],
    whatever the configured chunk size and (non-zero) number of workers. *)
Theorem compute_chunks_small_file (chunk_size num_threads total_size : Z) :
  num_threads ≠ 0 → 0 < total_size → total_size ≤ Chunker.min_chunk_size →
  Chunker.compute_chunks chunk_size num_threads total_size = [(0, total_size - 1)].
Proof.
  intros _ Hpos Hsmall.
  pose proof (effective_chunk_size_floor
                Chunker.min_chunk_size chunk_size num_threads total_size) as Hfloor.
  unfold Chunker.compute_chunks, Chunker.chunks_with.
  set (step := Chunker.effective_chunk_size _ _ _ _) in *.
  unfold Chunker.chunks_of, Py.range, Py.range_len.
  rewrite decide_True by done.
  rewrite Z.div_small by lia. simpl.
  f_equal. f_equal. lia.
Qed.

Lemma compute_chunks_small_file_witness :
  Chunker.compute_chunks (4 * 1024 * 1024) 16 1048576 = [(0, 1048576 - 1)].
Proof.
  apply (compute_chunks_small_file (4 * 1024 * 1024) 16 1048576);
    [lia|lia|by vm_compute].
Defined.

Lemma tiles_total_length lo hi l :
  Chunker.tiles lo hi l → Resource.total_length l = hi - lo.
Proof.
  revert lo. induction l as [|[s e] l IH]; intros lo; simpl.
  - intros ->. lia.
  - intros (-> & Hse & Ht). rewrite (IH _ Ht).
    unfold Chunker.range_length. simpl. lia.
Qed.

(** X2: for a positive [total_size], the lengths of the ranges add up to
    [total_size]; no range is longer than [max(1 MiB, chunk_size)]; and
    there is at most one range per started MiB: all ranges but one
    together are shorter than the file. *)
Theorem compute_chunks_sizes (chunk_size num_threads total_size : Z) :
  num_threads ≠ 0 → 0 < total_size →
  let chunks := Chunker.compute_chunks chunk_size num_threads total_size in
  Resource.total_length chunks = total_size
  ∧ Forall (λ r, 1 ≤ Chunker.range_length r
                 ≤ Z.max Chunker.min_chunk_size chunk_size) chunks
  ∧ (Z.of_nat (length chunks) - 1) * Chunker.min_chunk_size < total_size.
Proof.
  intros _ Hpos chunks.
  pose proof (effective_chunk_size_floor
                Chunker.min_chunk_size chunk_size num_threads total_size) as Hfloor.
  assert (0 < Chunker.min_chunk_size) as Hmin by (by vm_compute).
  assert (Chunker.effective_chunk_size
            Chunker.min_chunk_size chunk_size num_threads total_size
          ≤ Z.max Chunker.min_chunk_size chunk_size) as Hceil.
  { unfold Chunker.effective_chunk_size. lia. }
  subst chunks. unfold Chunker.compute_chunks, Chunker.chunks_with.
  set (step := Chunker.effective_chunk_size _ _ _ _) in *.
  assert (0 < step) as Hstep by lia.
  pose proof (q_bounds step total_size Hstep Hpos) as Hq.
  split; [|split].
  - rewrite (tiles_total_length 0 total_size); [lia|by apply chunks_of_tiles].
  - apply Forall_forall. intros r [i Hi]%list_elem_of_lookup_1.
    apply chunks_of_lookup in Hi as [Hi ->]; [|done..].
    unfold Chunker.range_length. simpl.
    assert (Z.of_nat i * step ≤ (total_size - 1) / step * step) by nia.
    lia.
  - rewrite chunks_of_length by done.
    replace (Z.of_nat (Z.to_nat (1 + (total_size - 1) / step)) - 1)
      with ((total_size - 1) / step) by lia.
    nia.
Qed.

Lemma compute_chunks_sizes_witness :
  let chunks := Chunker.compute_chunks (4 * 1024 * 1024) 16 (50 * 1024 * 1024) in
  Resource.total_length chunks = 50 * 1024 * 1024
  ∧ Forall (λ r, 1 ≤ Chunker.range_length r
                 ≤ Z.max Chunker.min_chunk_size (4 * 1024 * 1024)) chunks
  ∧ (Z.of_nat (length chunks) - 1) * Chunker.min_chunk_size < 50 * 1024 * 1024.
Proof. apply (compute_chunks_sizes (4 * 1024 * 1024) 16 (50 * 1024 * 1024)); lia. Defined.

(** ** More on the fetch loop *)

(** When no answer has a rejected status, every turn of the loop either
    returns [True] or adds one to [retry_count]. *)
Lemma run_no_rejected_status srv start f (k : nat) :
  (∀ n r, srv n = Response r → accepted (status_code r) = true) →
  (k ≤ 3)%nat →
  (∃ f', run k srv start f = Running k (Z.of_nat k) f')
  ∨ (∃ (n : nat) f', run k srv start f = Done true n f' ∧ (1 ≤ n ≤ k)%nat).
Proof.
  intros Hsrv. induction k as [|k IH]; intros Hk.
  - left. by exists f.
  - unfold run in *. rewrite Nat.iter_succ.
    destruct IH as [[f' ->]|(n & f' & -> & Hn)]; [lia| |].
    + simpl. rewrite decide_True by (unfold max_retries; lia).
      replace (Z.of_nat k + 1) with (Z.of_nat (S k)) by lia.
      destruct (srv k) as [|r] eqn:Hr; [left; eauto|].
      rewrite (Hsrv _ _ Hr).
      destruct f' as [content|]; [|left; eauto].
      case_decide; [left; eauto|].
      destruct (broken r); [left; eauto|].
      right. eexists _, _. split; [done|lia].
    + right. exists n, f'. split; [done|lia].
Qed.

(** X3: when the server never answers with a status other than 200 or
    206, [_download_chunk] returns after at most three requests (four
    turns of the loop are enough), and it returns [False] only after
    exactly three of them. *)
Theorem download_chunk_bounded_retries
    (fuel : nat) (net : Z → Z → nat → reply) (start end_ : Z) (f : file) :
  (∀ n r, net start end_ n = Response r → accepted (status_code r) = true) →
  (4 ≤ fuel)%nat →
  ∃ b (n : nat) f',
    _download_chunk fuel net start end_ f = Some (b, n, f')
    ∧ (1 ≤ n ≤ 3)%nat
    ∧ (b = false → n = 3%nat).
Proof.
  intros Hsrv Hfuel. unfold _download_chunk.
  replace fuel with (S (fuel - 4) + 3)%nat by lia. rewrite run_add.
  destruct (run_no_rejected_status (net start end_) start f 3 Hsrv)
    as [[f' ->]|(n & f' & -> & Hn)]; [lia| |].
  - rewrite Nat.iter_succ_r.
    rewrite step_exhausted by done. rewrite iter_done.
    exists false, 3%nat, f'. split; [done|]. split; [lia|done].
  - rewrite !iter_done. exists true, n, f'. split; [done|]. split; [lia|done].
Qed.

Lemma download_chunk_bounded_retries_witness :
  ∃ b (n : nat) f',
    _download_chunk 7 (λ _ _ _, TransportError) 0 999 (Some [x00]) = Some (b, n, f')
    ∧ (1 ≤ n ≤ 3)%nat
    ∧ (b = false → n = 3%nat).
Proof.
  apply (download_chunk_bounded_retries 7 (λ _ _ _, TransportError) 0 999 (Some [x00]));
    [intros n r H; discriminate H|lia].
Defined.

(** The loop returns [True] only from the turn that got a complete
    accepted answer. *)
Lemma run_done_true srv start f (fuel n : nat) f' :
  run fuel srv start f = Done true n f' →
  ∃ r content (m : nat),
    n = S m ∧ srv m = Response r ∧ accepted (status_code r) = true
    ∧ broken r = false ∧ 0 ≤ start
    ∧ f' = Some (write_pieces (Z.to_nat start) (body r) content).
Proof.
  unfold run. revert n f'. induction fuel as [|fuel IH]; intros n f'; [done|].
  rewrite Nat.iter_succ.
  destruct (Nat.iter fuel _ _) as [m rc f0|b m f0] eqn:Hrun.
  - simpl. case_decide; [|done].
    destruct (srv m) as [|r] eqn:Hr; [done|].
    destruct (accepted _) eqn:Hacc; [|done].
    destruct f0 as [content|]; [|done].
    case_decide; [done|].
    destruct (broken r) eqn:Hbr; [done|].
    intros [= <- <-]. exists r, content, m. repeat split; try done. lia.
  - simpl. intros [= -> -> ->]. by apply IH.
Qed.

(** While the loop runs, the number of requests sent is the number of
    turns made. *)
Lemma run_running_attempt srv start f (k a : nat) rc f0 :
  run k srv start f = Running a rc f0 → a = k.
Proof.
  unfold run. revert a rc f0. induction k as [|k IH]; intros a rc f0.
  - by intros [= <- _ _].
  - rewrite Nat.iter_succ.
    destruct (Nat.iter k _ _) as [a' rc' f'|b a' f'] eqn:Hrun; [|done].
    rewrite (IH a' rc' f' eq_refl). simpl. case_decide; [|done].
    destruct (srv k) as [|r]; [by intros [= <- _ _]|].
    destruct (accepted _); [|by intros [= <- _ _]].
    destruct f' as [content|]; [|by intros [= <- _ _]].
    case_decide; [by intros [= <- _ _]|].
    destruct (broken r); [by intros [= <- _ _]|done].
Qed.

(** The loop returns [True] from a turn that found the file as the
    earlier turns left it, got a complete accepted answer and wrote its
    body into that file. *)
Lemma run_done_true_from srv start f (fuel n : nat) f' :
  run fuel srv start f = Done true n f' →
  ∃ r content (m : nat) rc,
    n = S m ∧ (m < fuel)%nat
    ∧ run m srv start f = Running m rc (Some content)
    ∧ srv m = Response r ∧ accepted (status_code r) = true
    ∧ broken r = false
    ∧ f' = Some (write_pieces (Z.to_nat start) (body r) content).
Proof.
  revert n f'. induction fuel as [|fuel IH]; intros n f'; [done|].
  unfold run. rewrite Nat.iter_succ. fold (run fuel srv start f).
  destruct (run fuel srv start f) as [m rc f0|b m f0] eqn:Hrun.
  - pose proof (run_running_attempt _ _ _ _ _ _ _ Hrun) as ->.
    simpl. case_decide; [|done].
    destruct (srv fuel) as [|r] eqn:Hr; [done|].
    destruct (accepted _) eqn:Hacc; [|done].
    destruct f0 as [content|]; [|done].
    case_decide; [done|].
    destruct (broken r) eqn:Hbr; [done|].
    intros [= <- <-]. exists r, content, fuel, rc.
    split; [done|]. split; [lia|]. by repeat split.
  - simpl. intros [= -> -> ->].
    destruct (IH n f' eq_refl) as (r & content & m & rc & -> & Hm & Hrest).
    exists r, content, m, rc. split; [done|]. split; [lia|done].
Qed.

(** X4: [_download_chunk] returns [True] only when its last request was
    answered with status 200 or 206 and the stream did not break; the
    file then is the file as the earlier attempts left it (the file of
    the loop state before that request) with that body written at
    offset [start], and this earlier file is the one the call started
    with or a longer one. Whatever it returns, it never creates, removes
    or shortens the file, and with no file at [file_path] it cannot
    return [True]. *)
Theorem download_chunk_success_means_complete_answer
    (fuel : nat) (net : Z → Z → nat → reply) (start end_ : Z) (f : file)
    (b : bool) (n : nat) (f' : file) :
  _download_chunk fuel net start end_ f = Some (b, n, f') →
  file_le f f'
  ∧ (f = None → b = false)
  ∧ (b = true →
     ∃ r content (m : nat) rc,
       n = S m
       ∧ run m (net start end_) start f = Running m rc (Some content)
       ∧ file_le f (Some content)
       ∧ net start end_ m = Response r
       ∧ accepted (status_code r) = true ∧ broken r = false
       ∧ f' = Some (write_pieces (Z.to_nat start) (body r) content)
       ∧ (m = 0%nat → f = Some content)).
Proof.
  intros H. pose proof (download_chunk_file_le _ _ _ _ _ _ _ _ H) as Hle.
  unfold _download_chunk in H.
  destruct (run fuel (net start end_) start f) as [|b' n' f''] eqn:Hrun; [done|].
  injection H as -> -> ->.
  assert (b = true →
     ∃ r content (m : nat) rc,
       n = S m
       ∧ run m (net start end_) start f = Running m rc (Some content)
       ∧ file_le f (Some content)
       ∧ net start end_ m = Response r
       ∧ accepted (status_code r) = true ∧ broken r = false
       ∧ f' = Some (write_pieces (Z.to_nat start) (body r) content)
       ∧ (m = 0%nat → f = Some content)) as Htrue.
  { intros ->. apply run_done_true_from in Hrun
      as (r & content & m & rc & -> & _ & Hm & Hr & Hacc & Hbr & ->).
    exists r, content, m, rc. split; [done|]. split; [done|]. split.
    { pose proof (iter_file_le (net start end_) start m (Running 0 0 f)) as Hpre.
      unfold run in Hm. by rewrite Hm in Hpre. }
    repeat (split; [done|]).
    intros ->. unfold run in Hm. simpl in Hm. by injection Hm as _ ->. }
  split; [done|]. split; [|done].
  intros ->. destruct b; [|done].
  by destruct (Htrue eq_refl) as (? & ? & ? & ? & _ & _ & ? & _).
Qed.

(** A second attempt that writes one byte into the file the first,
    failed attempt left untouched. *)
Lemma download_chunk_success_means_complete_answer_witness :
  file_le (Some [x00; x00]) (Some [x00; x07])
  ∧ (Some [x00; x00] = None → true = false)
  ∧ (true = true →
     ∃ r content (m : nat) rc,
       2%nat = S m
       ∧ run m (range_server [x05; x07] 1 1) 1 (Some [x00; x00])
         = Running m rc (Some content)
       ∧ file_le (Some [x00; x00]) (Some content)
       ∧ range_server [x05; x07] 1 1 m = Response r
       ∧ accepted (status_code r) = true ∧ broken r = false
       ∧ Some [x00; x07] = Some (write_pieces (Z.to_nat 1) (body r) content)
       ∧ (m = 0%nat → Some [x00; x00] = Some content)).
Proof.
  apply (download_chunk_success_means_complete_answer 2
           (range_server [x05; x07]) 1 1 (Some [x00; x00])
           true 2 (Some [x00; x07])).
  reflexivity.
Defined.

(** ** The engine against a server that honours ranges *)

Section honest_server.

Variable resource : list byte.

(** The file has the size of the resource and its first [k] bytes. *)
Let agree (k : nat) (content : list byte) : Prop :=
  length content = length resource ∧ take k content = take k resource.

Lemma slice_length (s e : Z) :
  0 ≤ s → s ≤ e → e < Z.of_nat (length resource) →
  length (Resource.slice s e resource) = Z.to_nat (e - s + 1).
Proof.
  intros Hs Hse He. unfold Resource.slice.
  rewrite length_take, length_drop. lia.
Qed.

Lemma take_slice (s e : Z) :
  0 ≤ s → s ≤ e →
  take (Z.to_nat (e + 1)) resource
  = take (Z.to_nat s) resource ++ Resource.slice s e resource.
Proof.
  intros Hs Hse. unfold Resource.slice.
  replace (Z.to_nat (e + 1)) with (Z.to_nat s + Z.to_nat (e - s + 1))%nat by lia.
  by rewrite take_take_drop.
Qed.

Lemma write_at_inside pos data content :
  (pos + length data ≤ length content)%nat →
  length (write_at pos data content) = length content
  ∧ take pos (write_at pos data content) = take pos content
  ∧ take (pos + length data) (write_at pos data content)
    = take pos content ++ data.
Proof.
  intros Hin. split; [rewrite write_at_length; lia|]. split.
  - rewrite write_at_prefix.
    replace (pos - length content)%nat with 0%nat by lia.
    by rewrite app_nil_r.
  - unfold write_at.
    replace (pos - length content)%nat with 0%nat by lia. simpl.
    rewrite app_assoc. rewrite take_app_length'; [done|].
    rewrite length_app, length_take. lia.
Qed.

(** Writing the start of the bytes asked for keeps what lies before the
    range; writing all of them extends the agreement to its end. *)
Lemma write_pieces_agree (s e : Z) pieces content :
  0 ≤ s → s ≤ e → e < Z.of_nat (length resource) →
  concat pieces `prefix_of` Resource.slice s e resource →
  agree (Z.to_nat s) content →
  agree (Z.to_nat s) (write_pieces (Z.to_nat s) pieces content)
  ∧ (concat pieces = Resource.slice s e resource →
     agree (Z.to_nat (e + 1)) (write_pieces (Z.to_nat s) pieces content)).
Proof.
  intros Hs Hse He Hpre [Hlen Htake].
  pose proof (slice_length s e Hs Hse He) as Hsl.
  pose proof (prefix_length _ _ Hpre) as Hpl.
  rewrite write_pieces_concat.
  destruct (decide (concat pieces = [])) as [Hnil|Hne].
  { split; [done|]. intros Heq. rewrite <- Heq, Hnil in Hsl. simpl in Hsl. lia. }
  destruct (write_at_inside (Z.to_nat s) (concat pieces) content)
    as (Hl' & Hp' & Hfull); [lia|].
  split; [split; congruence|].
  intros Heq. split; [congruence|].
  rewrite (take_slice s e) by done. rewrite <- Heq, <- Htake, <- Hfull.
  f_equal. rewrite Heq, Hsl. lia.
Qed.

Variable net : Z → Z → nat → reply.
Hypothesis net_honest : Resource.honours_ranges resource net.

Lemma run_agree (s e : Z) content (fuel : nat) :
  0 ≤ s → s ≤ e → e < Z.of_nat (length resource) →
  agree (Z.to_nat s) content →
  ∃ content',
    state_file (run fuel (net s e) s (Some content)) = Some content'
    ∧ agree (Z.to_nat s) content'
    ∧ (∀ n f', run fuel (net s e) s (Some content) = Done true n f' →
               agree (Z.to_nat (e + 1)) content').
Proof.
  intros Hs Hse He Hagree. unfold run.
  induction fuel as [|fuel IH].
  { exists content. simpl. split; [done|]. split; [done|]. by intros ?? [=]. }
  rewrite Nat.iter_succ.
  destruct IH as (c & Hfile & Hc & Hdone).
  destruct (Nat.iter fuel _ _) as [m rc f0|b m f0] eqn:Hrun;
    simpl in Hfile; subst f0.
  - simpl. case_decide; [|by exists c].
    destruct (net s e m) as [|r] eqn:Hr; [by exists c|].
    destruct (accepted _) eqn:Hacc; [|by exists c].
    rewrite decide_False by lia.
    destruct (net_honest s e m r Hr Hacc) as [Hpre Hfull].
    destruct (write_pieces_agree s e (body r) c Hs Hse He Hpre Hc) as [Hkeep Hext].
    destruct (broken r); simpl.
    + eexists. split; [done|]. split; [exact Hkeep|]. by intros ?? [=].
    + eexists. split; [done|]. split; [exact Hkeep|].
      intros _ _ _. by apply Hext, Hfull.
  - simpl. exists c. split; [done|]. split; [exact Hc|].
    intros n f' Heq. by apply (Hdone n f').
Qed.

Lemma download_chunk_agree (fuel : nat) (s e : Z) content (n : nat) f' :
  0 ≤ s → s ≤ e → e < Z.of_nat (length resource) →
  agree (Z.to_nat s) content →
  _download_chunk fuel net s e (Some content) = Some (true, n, f') →
  ∃ content', f' = Some content' ∧ agree (Z.to_nat (e + 1)) content'.
Proof.
  intros Hs Hse He Hagree H.
  destruct (run_agree s e content fuel Hs Hse He Hagree) as (c & Hfile & _ & Hdone).
  unfold _download_chunk in H.
  destruct (run fuel (net s e) s (Some content)) as [|b m f0] eqn:Hrun; [done|].
  injection H as -> -> ->. simpl in Hfile. subst f'.
  exists c. split; [done|]. by apply (Hdone n (Some c)).
Qed.

Lemma run_chunks_agree (fuel : nat) chunks (lo : Z) content results f' :
  0 ≤ lo →
  Chunker.tiles lo (Z.of_nat (length resource)) chunks →
  agree (Z.to_nat lo) content →
  Engine.run_chunks fuel net chunks (Some content) = Some (results, f') →
  Py.all results = true →
  ∃ content', f' = Some content' ∧ agree (length resource) content'.
Proof.
  revert lo content results.
  induction chunks as [|[s e] rest IH]; intros lo content results Hlo; simpl.
  - intros Heq Hagree [= <- <-] _. exists content. split; [done|].
    by replace (length resource) with (Z.to_nat lo) by lia.
  - intros (-> & Hse & Ht) Hagree.
    pose proof (tiles_bounds _ _ _ Ht) as [Hle _].
    destruct (_download_chunk fuel net lo e (Some content))
      as [[[b n] f1]|] eqn:H1; [|done].
    destruct (Engine.run_chunks fuel net rest f1) as [[bs f2]|] eqn:H2; [|done].
    intros [= <- <-]. unfold Py.all. simpl. intros [Hb Hbs]%andb_true_iff.
    unfold id in Hb. subst b.
    destruct (download_chunk_agree fuel lo e content n f1)
      as (c1 & -> & Hc1); [lia..|done|done|].
    eapply (IH (e + 1) c1 bs); [lia|done|done|done|done].
Qed.

End honest_server.

(** X5: against a server that honours the range header, a [download_file]
    that goes through the chunks and returns [True] leaves at [save_path]
    exactly the bytes of the resource, whatever was there before and
    however many attempts failed on the way. *)
Theorem download_file_success_is_resource
    (fuel : nat) (E : Engine.env) (num_threads chunk_size : Z) (f f' : file)
    (resource : list byte) (r : response) :
  Engine.head E = Response r → status_code r = 200 →
  content_length r = HInt (Z.of_nat (length resource)) →
  resource ≠ [] →
  Resource.honours_ranges resource (Engine.net E) →
  Engine.download_file fuel E num_threads chunk_size f = Some (true, f') →
  f' = Some resource.
Proof.
  intros Hhead Hst Hcl Hne Hhonest.
  assert (0 < Z.of_nat (length resource)) as Hpos.
  { destruct resource; [done|simpl; lia]. }
  unfold Engine.download_file, Engine.download_file_body.
  rewrite Hhead, Hcl. simpl.
  rewrite decide_False by lia.
  rewrite (decide_False (P := Z.of_nat _ = 0)) by lia.
  destruct (Engine.create_ok E); simpl; [|by intros [= ?]].
  rewrite (decide_False (P := Z.of_nat _ < 0)) by lia.
  destruct (decide (num_threads = 0)); [by intros [= ?]|].
  destruct (decide (num_threads < 0)); [by intros [= ?]|].
  destruct (Engine.run_chunks _ _ _ _) as [[results f'']|] eqn:Hrun; [|done].
  intros [= Hall ->].
  assert (0 < Chunker.effective_chunk_size Chunker.min_chunk_size chunk_size
                num_threads (Z.of_nat (length resource))) as Hstep.
  { pose proof (effective_chunk_size_floor Chunker.min_chunk_size chunk_size
                  num_threads (Z.of_nat (length resource))).
    assert (0 < Chunker.min_chunk_size) by (by vm_compute). lia. }
  pose proof (chunks_of_tiles _ _ Hstep Hpos) as Htiles.
  destruct (run_chunks_agree resource (Engine.net E) Hhonest fuel
              (Chunker.compute_chunks chunk_size num_threads
                 (Z.of_nat (length resource))) 0
              (replicate (Z.to_nat (Z.of_nat (length resource))) x00) results f')
    as (c & -> & Hlen & Htake); [lia|exact Htiles| |exact Hrun|exact Hall|].
  { split; [rewrite length_replicate; lia|done]. }
  f_equal. rewrite <- (take_ge c (length resource)) by lia.
  by rewrite Htake, take_ge.
Qed.

Lemma range_server_honours resource :
  Resource.honours_ranges resource (range_server resource).
Proof.
  intros start end_ [|n] r; [done|]. unfold range_server, status_reply_with.
  intros [= <-] _. simpl. rewrite app_nil_r. done.
Qed.

Lemma download_file_success_is_resource_witness :
  ∃ f',
    Engine.download_file 2 (range_env [x01; x02; x03] []) 16 (4 * 1024 * 1024)
      (Some [x09]) = Some (true, f')
    ∧ f' = Some [x01; x02; x03].
Proof.
  eexists. split; [vm_compute; reflexivity|].
  apply (download_file_success_is_resource 2 (range_env [x01; x02; x03] [])
           16 (4 * 1024 * 1024) (Some [x09]) _ [x01; x02; x03]
           {| status_code := 200; content_length := HInt 3;
              body := []; broken := false |});
    [reflexivity|reflexivity|reflexivity|done|apply range_server_honours|].
  vm_compute. reflexivity.
Defined.

(** X6: [_download_single] returns [True] exactly when the GET is
    answered with a status below 400 (or from 600 on), a usable length
    header, the file can be created and the stream does not break:
    under these conditions it returns [True] and the file holds the
    whole body, piece after piece; it returns [True] in no other case;
    and whenever it returns [False] no file is left at [save_path]. *)
Theorem download_single_outcome (E : Engine.env) :
  (∀ r,
     Engine.single E = Response r →
     ¬ (400 ≤ status_code r < 600) →
     content_length r ≠ HMalformed →
     Engine.create_ok E = true → broken r = false →
     Engine._download_single E = (true, Some (concat (body r))))
  ∧ ((Engine._download_single E).1 = true →
     ∃ r,
       Engine.single E = Response r
       ∧ ¬ (400 ≤ status_code r < 600)
       ∧ content_length r ≠ HMalformed
       ∧ Engine.create_ok E = true ∧ broken r = false)
  ∧ ((Engine._download_single E).1 = false →
     Engine._download_single E = (false, None)).
Proof.
  unfold Engine._download_single, Engine.single_body, Engine.cleanup.
  split; [|split].
  - intros r -> Hst Hcl -> Hbr. rewrite decide_False by done.
    destruct (content_length r); [| |done]; simpl; rewrite Hbr.
    all: rewrite write_pieces_concat; case_decide as Hnil; [by rewrite Hnil|].
    all: do 2 f_equal; unfold write_at; simpl; by rewrite drop_nil, app_nil_r.
  - destruct (Engine.single E) as [|r]; [done|].
    case_decide as Hst; [done|].
    destruct (content_length r) eqn:Hcl; simpl; [| |done].
    all: destruct (Engine.create_ok E) eqn:Hc; simpl; [|done].
    all: destruct (broken r) eqn:Hbr; [done|].
    all: intros _; exists r; by rewrite Hcl.
  - destruct (Engine.single E) as [|r]; [done|].
    case_decide as Hst; [done|].
    destruct (content_length r) eqn:Hcl; simpl; [| |done].
    all: destruct (Engine.create_ok E) eqn:Hc; simpl; [|done].
    all: by destruct (broken r) eqn:Hbr.
Qed.

(** The chunks of a run all return when their loops do. *)
Lemma run_chunks_returns (fuel : nat) net chunks f :
  (∀ s e n r, net s e n = Response r → accepted (status_code r) = true) →
  (4 ≤ fuel)%nat →
  ∃ results f', Engine.run_chunks fuel net chunks f = Some (results, f').
Proof.
  intros Hnet Hfuel. revert f.
  induction chunks as [|[s e] rest IH]; intros f; simpl; [eauto|].
  destruct (download_chunk_bounded_retries fuel net s e f (Hnet s e) Hfuel)
    as (b & n & f1 & -> & _).
  destruct (IH f1) as (bs & f2 & ->). eauto.
Qed.

(** X7: when the server never answers a range request with a status
    other than 200 or 206, [download_file] returns: no chunk loop needs
    more than four turns, whatever the probe says and however the
    requests fail. *)
Theorem download_file_returns
    (fuel : nat) (E : Engine.env) (num_threads chunk_size : Z) (f : file) :
  (∀ s e n r, Engine.net E s e n = Response r → accepted (status_code r) = true) →
  (4 ≤ fuel)%nat →
  ∃ b f', Engine.download_file fuel E num_threads chunk_size f = Some (b, f').
Proof.
  intros Hnet Hfuel. unfold Engine.download_file, Engine.download_file_body.
  destruct (Engine.head E) as [|r]; [by eexists _, _|].
  case_decide; [by eexists _, _|].
  destruct (int_content_length _) as [total|]; [|by eexists _, _].
  case_decide; [destruct (Engine._download_single E); by eexists _, _|].
  destruct (negb _); [by eexists _, _|].
  repeat (case_decide; [by eexists _, _|]).
  destruct (run_chunks_returns fuel (Engine.net E)
              (Chunker.compute_chunks chunk_size num_threads total)
              (Some (replicate (Z.to_nat total) x00)) Hnet Hfuel)
    as (results & f' & ->).
  by eexists _, _.
Qed.

Lemma download_file_returns_witness :
  ∃ b f',
    Engine.download_file 4 (range_env [x01; x02; x03] []) 16 (4 * 1024 * 1024) None
    = Some (b, f').
Proof.
  apply (download_file_returns 4 (range_env [x01; x02; x03] []) 16
           (4 * 1024 * 1024) None); [|lia].
  intros s e [|n] r; [done|]. by intros [= <-].
Defined.



(** ** More on the ledger *)

Lemma upsert_spec (platform : string) (version_info : record) (h : history) :
  is_str (sort_key version_info) = true →
  str_keys (default [] (h !! lower platform)) →
  ∃ l',
    upsert platform version_info h = Returns (<[lower platform := l']> h)
    ∧ l' ≡ₚ update_or_append version_info (default [] (h !! lower platform))
    ∧ StronglySorted key_ge l'.
Proof.
  intros Hinfo Hl.
  destruct (py_sort_reverse_spec
              (update_or_append version_info (default [] (h !! lower platform))))
    as (l' & Hsort & Hperm & Hsorted).
  { by apply update_or_append_keys. }
  exists l'. split; [|done].
  unfold upsert. revert Hsort.
  destruct (h !! lower platform) as [l0|] eqn:Hk; cbn [default from_option id].
  - rewrite Hk. cbn [default from_option id]. by intros ->.
  - rewrite lookup_insert_eq. cbn [default from_option id]. intros ->.
    cbn [mbind outcome_bind]. by rewrite insert_insert_eq.
Qed.

Lemma version_py_update (r version_info : record) :
  py_get r "version" = py_get version_info "version" →
  py_get (py_update r version_info) "version" = py_get r "version".
Proof.
  unfold py_get, py_update. rewrite lookup_union.
  destruct (version_info !! "version") as [v|];
    destruct (r !! "version"); simpl; congruence.
Qed.

Lemma update_or_append_versions (version_info : record) (l : list record) :
  NoDup ((λ r, py_get r "version") <$> l) →
  NoDup ((λ r, py_get r "version") <$> update_or_append version_info l)
  ∧ py_get version_info "version"
      ∈ (λ r, py_get r "version") <$> update_or_append version_info l.
Proof.
  intros Hnd.
  destruct (update_or_append_cases version_info l)
    as [(l1 & r & l2 & -> & Hl1 & Hr & ->)|[Hall ->]].
  - rewrite !fmap_app, !fmap_cons in *. rewrite version_py_update by done.
    split; [done|]. rewrite Hr. set_solver.
  - rewrite fmap_app. simpl. split; [|set_solver].
    apply NoDup_app. split; [done|]. split; [|apply NoDup_singleton].
    intros v Hv ->%list_elem_of_singleton.
    apply list_elem_of_fmap in Hv as (r & Hr & Hin).
    rewrite Forall_forall in Hall. by apply (Hall r).
Qed.

(** X9: the upsert keeps the versions of a platform distinct. When no
    two records of the platform have the same [version] (and the
    [update_time] fields are strings), [_update_history] leaves a list in
    which again no two records have the same version, and one of them
    has the version of the new record. *)
Theorem upsert_keeps_versions_distinct
    (platform : string) (version_info : record) (h : history) :
  is_str (sort_key version_info) = true →
  str_keys (default [] (h !! lower platform)) →
  NoDup ((λ r, py_get r "version") <$> default [] (h !! lower platform)) →
  ∃ l',
    upsert platform version_info h = Returns (<[lower platform := l']> h)
    ∧ NoDup ((λ r, py_get r "version") <$> l')
    ∧ py_get version_info "version" ∈ (λ r, py_get r "version") <$> l'.
Proof.
  intros Hinfo Hl Hnd.
  destruct (upsert_spec platform version_info h Hinfo Hl) as (l' & Hup & Hperm & _).
  exists l'. split; [done|].
  destruct (update_or_append_versions version_info _ Hnd) as [Hnd' Hin].
  rewrite Hperm. done.
Qed.

Lemma upsert_keeps_versions_distinct_witness :
  ∃ l',
    upsert "macOS" record_751_9000 ledger_751 = Returns (<[lower "macOS" := l']> ledger_751)
    ∧ NoDup ((λ r, py_get r "version") <$> l')
    ∧ py_get record_751_9000 "version" ∈ (λ r, py_get r "version") <$> l'.
Proof.
  apply (upsert_keeps_versions_distinct "macOS" record_751_9000 ledger_751).
  - reflexivity.
  - vm_compute. by repeat constructor.
  - vm_compute. apply NoDup_singleton.
Defined.

(** X10: after the upsert the platform's list has a record that carries
    every field of the new record with the new value, and every record
    of another version that was in the list is still there, unchanged. *)
Theorem upsert_stores_record
    (platform : string) (version_info : record) (h : history) :
  is_str (sort_key version_info) = true →
  str_keys (default [] (h !! lower platform)) →
  ∃ h' l',
    upsert platform version_info h = Returns h'
    ∧ h' !! lower platform = Some l'
    ∧ (∃ r', r' ∈ l' ∧ version_info ⊆ r')
    ∧ (∀ r, r ∈ default [] (h !! lower platform) →
            py_get r "version" ≠ py_get version_info "version" → r ∈ l')
    ∧ (∀ other, other ≠ lower platform → h' !! other = h !! other).
Proof.
  intros Hinfo Hl.
  destruct (upsert_spec platform version_info h Hinfo Hl) as (l' & Hup & Hperm & _).
  exists (<[lower platform := l']> h), l'.
  split; [done|]. split; [apply lookup_insert_eq|].
  split; [|split].
  - destruct (update_or_append_cases version_info (default [] (h !! lower platform)))
      as [(l1 & r & l2 & _ & _ & _ & Heq)|[_ Heq]]; rewrite Heq in Hperm.
    + exists (py_update r version_info). split.
      * rewrite Hperm. set_solver.
      * unfold py_update. apply map_union_subseteq_l.
    + exists version_info. split; [|done]. rewrite Hperm. set_solver.
  - intros r Hr Hne.
    destruct (update_or_append_cases version_info (default [] (h !! lower platform)))
      as [(l1 & r0 & l2 & Hl12 & _ & Hr0 & Heq)|[_ Heq]];
      rewrite Hperm, Heq.
    + rewrite Hl12 in Hr.
      apply elem_of_app in Hr as [?|[->|?]%elem_of_cons]; [set_solver|done|set_solver].
    + set_solver.
  - intros other Hne. by rewrite lookup_insert_ne.
Qed.

Lemma upsert_stores_record_witness :
  ∃ h' l',
    upsert "macOS" record_751_9000 ledger_751 = Returns h'
    ∧ h' !! lower "macOS" = Some l'
    ∧ (∃ r', r' ∈ l' ∧ record_751_9000 ⊆ r')
    ∧ (∀ r, r ∈ default [] (ledger_751 !! lower "macOS") →
            py_get r "version" ≠ py_get record_751_9000 "version" → r ∈ l')
    ∧ (∀ other, other ≠ lower "macOS" → h' !! other = ledger_751 !! other).
Proof.
  apply (upsert_stores_record "macOS" record_751_9000 ledger_751).
  - reflexivity.
  - vm_compute. by repeat constructor.
Defined.

Lemma string_le_not_ltb s t : String.le t s → String.ltb s t = false.
Proof.
  unfold String.ltb, String.le, String.leb.
  rewrite (String.compare_antisym s t).
  destruct (String.compare t s); simpl; done.
Qed.

(** Sorting a list that is already in descending order changes nothing. *)
Lemma sorted_desc_id l : StronglySorted key_ge l → sorted_desc l = l.
Proof.
  induction 1 as [|x l Hs IH Hx]; simpl; [done|].
  rewrite IH. destruct l as [|y l]; [done|]. simpl.
  apply Forall_cons in Hx as [Hxy _]. unfold key_ge in Hxy. unfold key_ltb.
  destruct (sort_key x), (sort_key y); try done.
  by rewrite string_le_not_ltb.
Qed.

Lemma sorted_keys_str l :
  StronglySorted key_ge l → (2 ≤ length l)%nat →
  forallb (λ r, is_str (sort_key r)) l = true.
Proof.
  induction 1 as [|x l Hs IH Hx]; simpl; [lia|]. intros Hlen.
  destruct l as [|y l]; [simpl in Hlen; lia|].
  pose proof Hx as [Hxy _]%Forall_cons. unfold key_ge in Hxy.
  destruct (sort_key x) eqn:Hkx; [done|]. simpl.
  destruct l as [|z l].
  - simpl. destruct (sort_key y); [done|]. done.
  - apply IH. simpl. lia.
Qed.

Lemma py_sort_reverse_sorted l :
  StronglySorted key_ge l → py_sort_reverse l = Returns l.
Proof.
  intros Hs. unfold py_sort_reverse. case_decide; [done|].
  rewrite sorted_keys_str by (done || lia). by rewrite sorted_desc_id.
Qed.

(** With distinct versions, a record that already carries the new
    fields is found and left as it is. *)
Lemma update_or_append_fixed (version_info m : record) (l : list record) :
  NoDup ((λ r, py_get r "version") <$> l) →
  m ∈ l → py_get m "version" = py_get version_info "version" →
  py_update m version_info = m →
  update_or_append version_info l = l.
Proof.
  intros Hnd Hm Hv Hfix. induction l as [|x l IH]; [by apply elem_of_nil in Hm|].
  simpl. rewrite fmap_cons in Hnd. apply NoDup_cons in Hnd as [Hx Hnd].
  apply elem_of_cons in Hm as [->|Hm].
  - rewrite decide_True by done. by rewrite Hfix.
  - rewrite decide_False; [by rewrite IH|].
    intros Heq. apply Hx. rewrite Heq, <- Hv.
    apply list_elem_of_fmap. by exists m.
Qed.

(** X11: the upsert is idempotent on a ledger with distinct versions:
    recording the same record a second time returns normally and leaves
    the ledger as the first upsert left it. *)
Theorem upsert_idempotent
    (platform : string) (version_info : record) (h h1 : history) :
  is_str (sort_key version_info) = true →
  str_keys (default [] (h !! lower platform)) →
  NoDup ((λ r, py_get r "version") <$> default [] (h !! lower platform)) →
  upsert platform version_info h = Returns h1 →
  upsert platform version_info h1 = Returns h1.
Proof.
  intros Hinfo Hl Hnd Hup.
  destruct (upsert_spec platform version_info h Hinfo Hl) as (l' & Hup' & Hperm & Hs).
  rewrite Hup in Hup'. injection Hup' as ->.
  destruct (update_or_append_versions version_info _ Hnd) as [Hnd' _].
  assert (update_or_append version_info l' = l') as Hfix.
  { destruct (update_or_append_cases version_info (default [] (h !! lower platform)))
      as [(l1 & r & l2 & _ & _ & Hr & Heq)|[_ Heq]]; rewrite Heq in Hperm.
    - apply (update_or_append_fixed _ (py_update r version_info)).
      + by rewrite Hperm, <- Heq.
      + rewrite Hperm. set_solver.
      + rewrite version_py_update by done. done.
      + unfold py_update. by rewrite (assoc_L (∪)), (idemp_L (∪)).
    - apply (update_or_append_fixed _ version_info).
      + by rewrite Hperm, <- Heq.
      + rewrite Hperm. set_solver.
      + done.
      + unfold py_update. by rewrite (idemp_L (∪)). }
  unfold upsert. rewrite lookup_insert_eq. cbn [default from_option id].
  rewrite lookup_insert_eq. cbn [default from_option id].
  rewrite Hfix, py_sort_reverse_sorted by done.
  cbn [mbind outcome_bind]. by rewrite insert_insert_eq.
Qed.

Lemma upsert_idempotent_witness :
  upsert "macOS" record_751_9000 {[ "macos" := [record_751_9000] ]}
  = Returns {[ "macos" := [record_751_9000] ]}.
Proof.
  apply (upsert_idempotent "macOS" record_751_9000 ledger_751).
  - reflexivity.
  - vm_compute. by repeat constructor.
  - vm_compute. apply NoDup_singleton.
  - vm_compute. reflexivity.
Defined.

(** ** The flush and the upsert *)




(** ** More on the Windows path *)

(** X12: what [_get_windows_version] can do. It never hands a link to
    [download_file]. It returns the local record only when no version
    was discovered, the 32-bit link of the built-in version 21915 fails
    the check, the 64-bit link passes it and the local record has
    version 21915. It builds a record only for a version that was
    discovered: the built-in version is never recorded. *)
Theorem windows_outcomes
    (local_info : option record) (from_360 : option string)
    (from_site : option (string * option string)) (verify : string → bool) :
  let res := _get_windows_version local_info from_360 from_site verify in
  res.2 = []
  ∧ (∀ r, res.1 = WinSkip r →
       from_360 = None
       ∧ (∀ url v, from_site ≠ Some (url, Some v))
       ∧ local_info = Some r
       ∧ py_get r "version" = VStr "21915"
       ∧ verify (setup_url "" "21915") = false
       ∧ verify (setup_url "X64_" "21915") = true)
  ∧ (∀ v u, res.1 = WinRecord v u →
       (from_360 = Some v ∧ u = first_valid verify v)
       ∨ (from_360 = None ∧ ∃ url, from_site = Some (url, Some v) ∧ u = Some url)).
Proof.
  unfold _get_windows_version.
  destruct from_360 as [v0|].
  { simpl. split; [done|]. split; [done|]. intros v u [= <- <-]. by left. }
  destruct from_site as [[url [v0|]]|].
  { simpl. split; [done|]. split; [done|]. intros v u [= <- <-]. right. eauto. }
  all: cbn [fst snd].
  all: destruct (verify (setup_url "" "21915")) eqn:H32; cbn [negb];
    [by repeat split|].
  all: destruct (verify (setup_url "X64_" "21915")) eqn:H64; cbn [negb];
    [|by repeat split].
  all: destruct local_info as [r0|]; [|by repeat split].
  all: unfold truthy.
  all: destruct (bool_decide (r0 ≠ ∅)); cbn [andb]; [|by repeat split].
  all: destruct (bool_decide_reflect (py_get r0 "version" = VStr "21915"));
    [|by repeat split].
  all: split; [done|]; split; [|done].
  all: intros r [= <-]; by repeat split.
Qed.

(** ** File names *)

Lemma ends_with_refl s : ends_with s s = true.
Proof. destruct s; cbn [ends_with]; by rewrite bool_decide_eq_true_2. Qed.

Lemma ends_with_app suffix p s :
  ends_with suffix s = true → ends_with suffix (p +:+ s) = true.
Proof.
  intros H. induction p as [|c p IH]; [done|].
  change (String c p +:+ s) with (String c (p +:+ s)).
  cbn [ends_with]. rewrite IH. apply orb_true_r.
Qed.

(** X13: [_generate_filename] gives a name ending in [.exe] for Windows
    and in [.zip] for macOS, whatever the case of the platform name, the
    version and the optional parts; for any other platform, and only
    then, the name is empty. *)
Theorem generate_filename_shape
    (platform version : string) (build_number release_date : option string) :
  let name := _generate_filename platform version build_number release_date in
  (lower platform = "windows" → ends_with ".exe" name = true)
  ∧ (lower platform = "macos" → ends_with ".zip" name = true)
  ∧ (name = "" ↔ lower platform ≠ "windows" ∧ lower platform ≠ "macos").
Proof.
  unfold _generate_filename.
  destruct (decide (lower platform = "windows")) as [Hw|Hw].
  { split; [|split].
    - intros _. destruct (truthy_str release_date);
        repeat (apply ends_with_app); apply ends_with_refl.
    - intros Hm. rewrite Hw in Hm. discriminate.
    - split; [|by intros [? _]]. by destruct (truthy_str release_date). }
  destruct (decide (lower platform = "macos")) as [Hm|Hm].
  { split; [done|]. split.
    - intros _. destruct (truthy_str release_date);
        repeat (apply ends_with_app); apply ends_with_refl.
    - split; [|by intros [_ ?]]. by destruct (truthy_str release_date). }
  done.
Qed.

(** ** The file hash *)

Lemma read_blocks_concat (fuel : nat) (content : list byte) :
  (length content < fuel)%nat → concat (read_blocks fuel content) = content.
Proof.
  revert content. induction fuel as [|fuel IH]; intros content Hlen; [lia|].
  cbn [read_blocks]. case_decide as Hblock.
  - apply take_nil_inv in Hblock as [? | ->]; done.
  - cbn [concat]. rewrite IH; [apply take_drop|].
    rewrite length_drop. destruct content; [by rewrite take_nil in Hblock|].
    cbn [length] in *. lia.
Qed.

Lemma read_blocks_bounded (fuel : nat) (content : list byte) :
  Forall (λ block, (1 ≤ length block ≤ 4096)%nat) (read_blocks fuel content).
Proof.
  revert content. induction fuel as [|fuel IH]; intros content; [constructor|].
  cbn [read_blocks]. case_decide as Hblock; [constructor|].
  constructor; [|apply IH]. rewrite length_take. split; [|lia].
  destruct (take 4096 content) eqn:Ht; [done|].
  rewrite <- (length_take content 4096), Ht. cbn [length]. lia.
Qed.

(** X14: [_calculate_file_hash] feeds the file to the hash in blocks of
    at most 4096 bytes and returns the digest of the whole file: for a
    hash whose [update] is incremental (feeding [a] then [b] is feeding
    [a ++ b]), the result is the digest of the file's bytes fed at
    once. On a missing file it raises. *)
Theorem calculate_file_hash_whole_file
    (hash_state : Type) (sha256 : hash_state)
    (update : hash_state → list byte → hash_state)
    (hexdigest : hash_state → string) (content : list byte) :
  (∀ s a b, update (update s a) b = update s (a ++ b)) →
  (∀ s, update s [] = s) →
  _calculate_file_hash hash_state sha256 update hexdigest (Some content)
  = Returns (hexdigest (update sha256 content))
  ∧ _calculate_file_hash hash_state sha256 update hexdigest None = Raises.
Proof.
  intros Happ Hnil. split; [|done]. unfold _calculate_file_hash. do 2 f_equal.
  transitivity (update sha256 (concat (read_blocks (S (length content)) content)));
    [|by rewrite read_blocks_concat by lia].
  generalize (read_blocks (S (length content)) content) sha256.
  intros blocks. induction blocks as [|b blocks IH]; intros s; cbn [foldl concat].
  - by rewrite Hnil.
  - by rewrite IH, Happ.
Qed.

Lemma calculate_file_hash_whole_file_witness :
  _calculate_file_hash (list byte) [] (λ s b, s ++ b)
    (λ s, match s with [] => "empty" | _ => "bytes" end) (Some [x01; x02])
  = Returns "bytes"
  ∧ _calculate_file_hash (list byte) [] (λ s b, s ++ b)
      (λ s, match s with [] => "empty" | _ => "bytes" end) None
    = Raises.
Proof.
  apply (calculate_file_hash_whole_file (list byte) [] (λ s b, s ++ b)
           (λ s, match s with [] => "empty" | _ => "bytes" end) [x01; x02]).
  - intros s a b. by rewrite app_assoc.
  - intros s. by rewrite app_nil_r.
Defined.

(** ** The macOS path *)

(** X15: the download link chosen from the captured links always ends
    in [.zip]. It is the first captured [.zip] link on [wpscdn.cn]; or,
    when there is none, the first captured directory link on
    [wpscdn.cn], stripped of its trailing slashes, with
    [/WPS_Office_Installer.zip] appended. No link is chosen exactly when
    no captured link is of either kind. *)
Theorem select_download_url_spec (captured : list string) :
  match select_download_url captured with
  | Some url =>
      ends_with ".zip" url = true
      ∧ ((url ∈ captured ∧ is_zip_link url = true)
         ∨ (Forall (λ u, is_zip_link u = false) captured
            ∧ ∃ dir, dir ∈ captured ∧ is_dir_link dir = true
                     ∧ url = rstrip_slash dir +:+ "/WPS_Office_Installer.zip"))
  | None =>
      Forall (λ u, is_zip_link u = false ∧ is_dir_link u = false) captured
  end.
Proof.
  unfold select_download_url.
  destruct (List.find is_zip_link captured) as [url|] eqn:Hzip.
  { apply find_some in Hzip as [Hin Hz]. split.
    - unfold is_zip_link in Hz. by apply andb_true_iff in Hz as [? _].
    - left. split; [by apply list_elem_of_In|done]. }
  pose proof (find_none _ _ Hzip) as Hnone.
  assert (Forall (λ u, is_zip_link u = false) captured) as Hall.
  { apply Forall_forall. intros u Hu. by apply Hnone, list_elem_of_In. }
  destruct (List.find is_dir_link captured) as [dir|] eqn:Hdir.
  - apply find_some in Hdir as [Hin Hd]. split.
    + apply (ends_with_app ".zip" _ "/WPS_Office_Installer.zip"). reflexivity.
    + right. split; [done|]. exists dir. by rewrite <- list_elem_of_In in Hin.
  - pose proof (find_none _ _ Hdir) as Hnone'.
    apply Forall_forall. intros u Hu.
    split; [by apply Hnone, list_elem_of_In|by apply Hnone', list_elem_of_In].
Qed.

Lemma macos_record_fields version build_number download_url now release_date downloaded :
  py_get (macos_record version build_number download_url now release_date downloaded)
    "version" = VStr version
  ∧ py_get (macos_record version build_number download_url now release_date downloaded)
      "build_number" = VStr build_number.
Proof.
  unfold macos_record, py_get.
  destruct (truthy_str release_date), downloaded as [[save_path file_hash]|];
    split; by simplify_map_eq.
Qed.

(** X16: the record that [_get_macos_version] builds for a version and a
    build number is recognised when it comes back as the local record:
    the decision is to skip exactly when the same version and the same
    build number are discovered again, and to proceed otherwise. *)
Theorem macos_rediscovery_decision
    (version build_number download_url now : string)
    (release_date : option string) (downloaded : option (string * string))
    (version' build_number' : string) :
  let r := macos_record version build_number download_url now
             release_date downloaded in
  macos_decision (Some r) version' build_number'
  = if decide (version = version' ∧ build_number = build_number')
    then Skip r else Proceed.
Proof.
  intros r.
  destruct (macos_record_fields version build_number download_url now
              release_date downloaded) as [Hv Hb]. fold r in Hv, Hb.
  case_decide as Heq.
  - destruct Heq as [<- <-]. by apply macos_decision_skip_iff.
  - destruct (macos_decision (Some r) version' build_number') as [r'|] eqn:Hd;
      [|done].
    apply macos_decision_skip_iff in Hd as ([= <-] & Hv' & Hb').
    destruct Heq. split; congruence.
Qed.

Lemma macos_iter_done now page (fuel n : nat) r :
  Nat.iter fuel (macos_step now page) (MDone n r) = MDone n r.
Proof. induction fuel as [|fuel IH]; [done|]. by rewrite Nat.iter_succ, IH. Qed.

(** Three turns of the loop always end in a [return]. *)
Lemma macos_three_attempts (now : string) (page : nat → macos_attempt) :
  ∃ (n : nat) r,
    Nat.iter 3 (macos_step now page) (MRunning 0 0) = MDone (S n) (Some r)
    ∧ (n < 3)%nat
    ∧ (∀ m : nat, (m < n)%nat → ¬ attempt_returns (page m))
    ∧ (page n = AttemptReturns r
       ∨ (n = 2%nat ∧ ¬ attempt_returns (page n)
          ∧ py_get r "version" = VStr "Unknown")).
Proof.
  change (Nat.iter 3 ?f ?x) with (f (f (f x))).
  destruct (page 0%nat) as [e0| |r0] eqn:H0;
    destruct (page 1%nat) as [e1| |r1] eqn:H1;
    destruct (page 2%nat) as [e2| |r2] eqn:H2.
  all: repeat (progress (cbn [macos_step]; rewrite ?H0, ?H1, ?H2;
                         rewrite ?decide_True by lia;
                         rewrite ?decide_False by lia)).
  all: eexists _, _; (split; [reflexivity|]); (split; [lia|]).
  all: split;
    [intros [|[|m]] Hm; rewrite ?H0, ?H1; simpl; (tauto || lia)|].
  all: first [ by left
             | right; rewrite H2; split; [done|]; split; [simpl; tauto|];
               unfold unknown_record, py_get; by simplify_map_eq ].
Qed.

(** X17: [_get_macos_version] makes at most three attempts and always
    returns a record: the one returned by the first attempt that reaches
    a [return], or, when none of the three does, a record with version
    ["Unknown"]. *)
Theorem get_macos_version_bounded
    (fuel : nat) (now : string) (page : nat → macos_attempt) :
  (3 ≤ fuel)%nat →
  ∃ (n : nat) r,
    _get_macos_version fuel now page = Some (S n, Some r)
    ∧ (n < 3)%nat
    ∧ (∀ m : nat, (m < n)%nat → ¬ attempt_returns (page m))
    ∧ (page n = AttemptReturns r
       ∨ (n = 2%nat ∧ ¬ attempt_returns (page n)
          ∧ py_get r "version" = VStr "Unknown")).
Proof.
  intros Hfuel. unfold _get_macos_version.
  replace fuel with ((fuel - 3) + 3)%nat by lia. rewrite Nat.iter_add.
  destruct (macos_three_attempts now page) as (n & r & -> & Hrest).
  rewrite macos_iter_done. by exists n, r.
Qed.

Lemma get_macos_version_bounded_witness :
  ∃ (n : nat) r,
    _get_macos_version 5 "2025-06-20 10:00:00" (λ _, AttemptNothing)
    = Some (S n, Some r)
    ∧ (n < 3)%nat
    ∧ (∀ m : nat, (m < n)%nat → ¬ attempt_returns AttemptNothing)
    ∧ (AttemptNothing = AttemptReturns r
       ∨ (n = 2%nat ∧ ¬ attempt_returns AttemptNothing
          ∧ py_get r "version" = VStr "Unknown")).
Proof.
  apply (get_macos_version_bounded 5 "2025-06-20 10:00:00" (λ _, AttemptNothing)).
  lia.
Defined.

(** ** Saving the version files *)

Lemma worth_saving_version (r : record) :
  worth_saving r = true →
  r ≠ ∅ ∧ is_Some (r !! "version") ∧ py_get r "version" ≠ VStr "Unknown".
Proof.
  unfold worth_saving. intros [[H1 H2]%andb_true_iff H3]%andb_true_iff.
  apply bool_decide_eq_true in H1, H2, H3.
  split; [done|]. split; [done|].
  destruct H2 as [v Hv]. unfold py_get. rewrite Hv in H3 |- *. simpl. congruence.
Qed.

Lemma worth_saving_unknown (r : record) :
  py_get r "version" = VStr "Unknown" → worth_saving r = false.
Proof.
  intros Hv. destruct (worth_saving r) eqn:Hw; [|done].
  by apply worth_saving_version in Hw as (_ & _ & ?).
Qed.

(** X18: when none of the three attempts of [_get_macos_version] reaches
    a [return], the record it returns is not saved: [crawl_all_versions]
    leaves every version file as it was, however the write would have
    gone. *)
Theorem failed_discovery_keeps_version_files
    (now : string) (page : nat → macos_attempt) (w : yaml_write)
    (files : gmap string yaml_file) :
  (∀ n : nat, (n < 3)%nat → ¬ attempt_returns (page n)) →
  ∃ (n : nat) r,
    _get_macos_version 3 now page = Some (n, Some r)
    ∧ crawl_platform "macOS" (Returns (Some r)) w files = files.
Proof.
  intros Hfail. unfold _get_macos_version.
  destruct (macos_three_attempts now page) as (n & r & -> & Hn & _ & Hcase).
  exists (S n), r. split; [done|].
  destruct Hcase as [Hret|(_ & _ & Hv)].
  - destruct (Hfail n Hn). by rewrite Hret.
  - unfold crawl_platform. by rewrite worth_saving_unknown.
Qed.

Lemma failed_discovery_keeps_version_files_witness :
  ∃ (n : nat) r,
    _get_macos_version 3 "2025-06-20 10:00:00" (λ _, AttemptRaises "timeout")
    = Some (n, Some r)
    ∧ crawl_platform "macOS" (Returns (Some r)) YWriteOk ∅ = ∅.
Proof.
  apply (failed_discovery_keeps_version_files "2025-06-20 10:00:00"
           (λ _, AttemptRaises "timeout") YWriteOk ∅).
  intros n _. simpl. tauto.
Defined.

Lemma crawl_platform_other platform crawled w files key :
  key ≠ lower platform →
  crawl_platform platform crawled w files !! key = files !! key.
Proof.
  intros Hne. unfold crawl_platform, save_version_info.
  destruct crawled as [[r|]|]; [|done..].
  destruct (worth_saving r); [|done].
  destruct w; simpl; by rewrite ?lookup_insert_ne.
Qed.

Lemma crawl_platform_own platform crawled w files :
  crawl_platform platform crawled w files !! lower platform
    = files !! lower platform
  ∨ ∃ r,
      crawled = Returns (Some r) ∧ worth_saving r = true
      ∧ ((w = YWriteOk
          ∧ crawl_platform platform crawled w files !! lower platform
            = Some (YHolds r))
         ∨ (∃ leftover,
              w = YDumpFails leftover
              ∧ crawl_platform platform crawled w files !! lower platform
                = Some leftover)).
Proof.
  unfold crawl_platform, save_version_info.
  destruct crawled as [[r|]|]; [|by left..].
  destruct (worth_saving r) eqn:Hw; [|by left].
  destruct w as [| |leftover]; simpl.
  - right. exists r. repeat split; try done. left. by rewrite lookup_insert_eq.
  - by left.
  - right. exists r. repeat split; try done. right. exists leftover.
    by rewrite lookup_insert_eq.
Qed.

(** X19: what [crawl_all_versions] does to the version files. The file
    of a platform changes only when that platform's function returned a
    non-empty record with a [version] other than ["Unknown"]; it then
    holds that record (or what a failed dump left). What the other
    platform's function did, even raising, has no effect on it, and no
    other file is touched. *)
Theorem crawl_all_versions_files
    (windows macos : outcome (option record)) (w_windows w_macos : yaml_write)
    (files : gmap string yaml_file) :
  let files' := crawl_all_versions windows macos w_windows w_macos files in
  let written (crawled : outcome (option record)) (w : yaml_write) (key : string) :=
    ∃ r,
      crawled = Returns (Some r) ∧ worth_saving r = true
      ∧ py_get r "version" ≠ VStr "Unknown"
      ∧ ((w = YWriteOk ∧ files' !! key = Some (YHolds r))
         ∨ (∃ leftover, w = YDumpFails leftover ∧ files' !! key = Some leftover)) in
  (∀ key, key ≠ "windows" → key ≠ "macos" → files' !! key = files !! key)
  ∧ (files' !! "windows" = files !! "windows" ∨ written windows w_windows "windows")
  ∧ (files' !! "macos" = files !! "macos" ∨ written macos w_macos "macos").
Proof.
  intros files' written. subst files' written. unfold crawl_all_versions.
  split; [|split].
  - intros key Hw Hm. by rewrite !crawl_platform_other.
  - rewrite (crawl_platform_other "macOS") by done.
    pose proof (crawl_platform_own "Windows" windows w_windows files) as Hown.
    change (lower "Windows") with "windows" in Hown.
    destruct Hown as [Hsame|(r & -> & Hw & Hcase)]; [by left|].
    right. exists r. split; [done|]. split; [done|].
    split; [by apply worth_saving_version in Hw as (_ & _ & ?)|].
    exact Hcase.
  - pose proof (crawl_platform_own "macOS" macos w_macos
                  (crawl_platform "Windows" windows w_windows files)) as Hown.
    change (lower "macOS") with "macos" in Hown.
    destruct Hown as [Hsame|(r & -> & Hw & Hcase)].
    + left. rewrite Hsame. by apply crawl_platform_other.
    + right. exists r. split; [done|]. split; [done|].
      split; [by apply worth_saving_version in Hw as (_ & _ & ?)|].
      exact Hcase.
Qed.

(** X20: a second run that finds the same macOS version again changes
    nothing. When the macOS version file holds the record of version
    and build number, reading it back and rediscovering the same pair
    gives [Skip] with that record, and saving the returned record leaves
    the version files as they are. *)
Theorem macos_second_run_is_noop
    (version build_number download_url now : string)
    (release_date : option string) (downloaded : option (string * string))
    (files : gmap string yaml_file) :
  let r := macos_record version build_number download_url now
             release_date downloaded in
  files !! "macos" = Some (YHolds r) →
  macos_decision (read_local_info (default YAbsent (files !! "macos")))
    version build_number = Skip r
  ∧ crawl_platform "macOS" (Returns (Some r)) YWriteOk files = files.
Proof.
  intros r Hfile. rewrite Hfile. cbn [default from_option id read_local_info].
  split.
  - apply macos_decision_skip_iff. split; [done|].
    apply macos_record_fields.
  - unfold crawl_platform, save_version_info. destruct (worth_saving r); [|done].
    cbn [snd]. by apply insert_id.
Qed.

Lemma macos_second_run_is_noop_witness :
  let r := macos_record "7.5.1" "8994" "https://package.mac.wpscdn.cn/a.zip"
             "2025-06-20 10:00:00" None None in
  macos_decision (read_local_info (default YAbsent
                    (({[ "macos" := YHolds r ]} : gmap string yaml_file) !! "macos")))
    "7.5.1" "8994" = Skip r
  ∧ crawl_platform "macOS" (Returns (Some r)) YWriteOk {[ "macos" := YHolds r ]}
    = {[ "macos" := YHolds r ]}.
Proof.
  apply (macos_second_run_is_noop "7.5.1" "8994"
           "https://package.mac.wpscdn.cn/a.zip" "2025-06-20 10:00:00" None None
           {[ "macos" := YHolds _ ]}).
  apply lookup_singleton_eq.
Defined.
